(** * qiling.os.utils: string marshalling and printf emulation

    A shallow embedding of [QlOsUtils] (qiling/os/utils.py): the string
    extractors [read_string], [read_wstring], [read_cstring], the invocation
    tracer [print_function], the format interpreter [__common_printf], the
    variadic marshaller [va_list] and the sinks [sprintf] and [printf].

    Python values are embedded as follows.
    - [str] is a list of Unicode code points ([pystr]); [bytes] and
      [bytearray] are lists of [Byte.byte]; [int] is [Z].
    - What the methods touch of the [ql] object (guest memory, the
      statistics collector, stdout, the logger, the architecture descriptor
      and the verbosity) is the record [Qiling]. A method is a state passing
      function ([M]); an exception is the [Raise] outcome and leaves the
      state as it was when raised.
    - The argument list handed to [sprintf] and [printf] is a Python list
      that [__common_printf] updates in place: it is part of the state of
      the methods that take it ([MA]).
    - The operations of the host language ([str.split], [str.replace],
      [bytes.decode], [str.encode], the [%] operator, f-strings) are
      functions of this file; they follow CPython 3. The loop of
      [read_string] is bounded by a fuel argument. *)

From Stdlib Require Import ZArith List Lia Bool.
From Stdlib.Strings Require Import Ascii String Byte.
From stdpp Require Import base option list gmap.

Local Open Scope Z_scope.

(** ** Bytes *)

Definition byte_to_Z (b : byte) : Z := Z.of_N (Byte.to_N b).

Definition byte_of_Z (z : Z) : byte :=
  match Byte.of_N (Z.to_N z) with
  | Some b => b
  | None => x00
  end.

#[global] Instance byte_eq_decision : EqDecision byte := Byte.byte_eq_dec.

(** ** Python [str] *)

(** A Python string: its code points, in order. *)
Abbreviation pystr := (list Z).

(** Literals of the source are written as Rocq strings of ASCII characters. *)
Definition py (s : string) : pystr :=
  map (fun a => Z.of_N (N_of_ascii a)) (list_ascii_of_string s).

(** [s.startswith(p)] *)
Fixpoint startswith (s p : pystr) : bool :=
  match p, s with
  | [], _ => true
  | _ :: _, [] => false
  | c :: p', d :: s' => (c =? d) && startswith s' p'
  end.

(** The scan shared by [count], [split] and [replace]: occurrences of a
    non-empty pattern are found left to right and do not overlap; [skip] is
    the number of characters of the last occurrence still to pass over. *)
Fixpoint count_from (sub : pystr) (skip : nat) (s : pystr) : nat :=
  match s with
  | [] => 0%nat
  | _ :: s' =>
      match skip with
      | S k => count_from sub k s'
      | O => if startswith s sub
             then S (count_from sub (length sub - 1) s')
             else count_from sub 0 s'
      end
  end.

(** [s.count(sub)] *)
Definition count (s sub : pystr) : nat :=
  match sub with
  | [] => S (length s)
  | _ :: _ => count_from sub 0 s
  end.

Definition cons_head (c : Z) (segs : list pystr) : list pystr :=
  match segs with
  | seg :: segs' => (c :: seg) :: segs'
  | [] => [[c]]
  end.

Fixpoint split_from (sep : pystr) (skip : nat) (s : pystr) : list pystr :=
  match s with
  | [] => [[]]
  | c :: s' =>
      match skip with
      | S k => split_from sep k s'
      | O => if startswith s sep
             then [] :: split_from sep (length sep - 1) s'
             else cons_head c (split_from sep 0 s')
      end
  end.

Fixpoint replace_from (old new : pystr) (skip : nat) (s : pystr) : pystr :=
  match s with
  | [] => []
  | c :: s' =>
      match skip with
      | S k => replace_from old new k s'
      | O => if startswith s old
             then new ++ replace_from old new (length old - 1) s'
             else c :: replace_from old new 0 s'
      end
  end.

(** [s.replace(old, new)]; with an empty [old], [new] is put before every
    character and at the end. *)
Definition replace (s old new : pystr) : pystr :=
  match old with
  | [] => new ++ flat_map (fun c => c :: new) s
  | _ :: _ => replace_from old new 0 s
  end.

(** [sep.join(parts)] *)
Fixpoint join (sep : pystr) (parts : list pystr) : pystr :=
  match parts with
  | [] => []
  | [p] => p
  | p :: rest => p ++ sep ++ join sep rest
  end.

(** [sub in s] *)
Fixpoint contains (s sub : pystr) : bool :=
  match s with
  | [] => startswith [] sub
  | _ :: s' => startswith s sub || contains s' sub
  end.

(** ** Exceptions and outcomes *)

Inductive exn : Type :=
  | MemoryAccessError   (* the memory subsystem refused an address *)
  | IndexError
  | TypeError
  | ValueError
  | OverflowError
  | UnicodeEncodeError.

(** What an operation of the host language gives: a value or an exception. *)
Inductive PyResult (A : Type) : Type :=
  | Val (a : A)
  | Exn (e : exn).
Arguments Val {A} a.
Arguments Exn {A} e.

(** The outcome of a method: a value, a raised exception, or [OutOfFuel] when
    the loop bound given to the model was too small to reach either. *)
Inductive Result (A : Type) : Type :=
  | Ok (a : A)
  | Raise (e : exn)
  | OutOfFuel.
Arguments Ok {A} a.
Arguments Raise {A} e.
Arguments OutOfFuel {A}.

Definition of_py {A} (r : PyResult A) : Result A :=
  match r with
  | Val a => Ok a
  | Exn e => Raise e
  end.

(** [s.split(sep)]: an empty separator is a [ValueError]. *)
Definition split (s sep : pystr) : PyResult (list pystr) :=
  match sep with
  | [] => Exn ValueError
  | _ :: _ => Val (split_from sep 0 s)
  end.

(** ** Text codecs *)

Definition is_continuation (b : Z) : bool := (0x80 <=? b) && (b <=? 0xBF).

(** [bytes.decode('utf-8', errors='ignore')] on byte values. A byte that
    cannot start a sequence is dropped alone; a sequence broken at its
    second, third or fourth byte loses the bytes before the offending one;
    a sequence cut short by the end of the input is dropped whole. *)
Fixpoint utf8_decode_ignore (bs : list Z) : pystr :=
  match bs with
  | [] => []
  | b0 :: r0 =>
    if b0 <? 0x80 then b0 :: utf8_decode_ignore r0
    else if b0 <? 0xC2 then utf8_decode_ignore r0
    else if b0 <? 0xE0 then
      match r0 with
      | [] => []
      | b1 :: r1 =>
        if is_continuation b1
        then ((b0 - 0xC0) * 64 + (b1 - 0x80)) :: utf8_decode_ignore r1
        else utf8_decode_ignore r0
      end
    else if b0 <? 0xF0 then
      match r0 with
      | [] => []
      | b1 :: r1 =>
        if negb (is_continuation b1)
           || ((b0 =? 0xE0) && (b1 <? 0xA0))
           || ((b0 =? 0xED) && (0xA0 <=? b1))
        then utf8_decode_ignore r0
        else
          match r1 with
          | [] => []
          | b2 :: r2 =>
            if is_continuation b2
            then ((b0 - 0xE0) * 4096 + (b1 - 0x80) * 64 + (b2 - 0x80))
                   :: utf8_decode_ignore r2
            else utf8_decode_ignore r1
          end
      end
    else if b0 <? 0xF5 then
      match r0 with
      | [] => []
      | b1 :: r1 =>
        if negb (is_continuation b1)
           || ((b0 =? 0xF0) && (b1 <? 0x90))
           || ((b0 =? 0xF4) && (0x90 <=? b1))
        then utf8_decode_ignore r0
        else
          match r1 with
          | [] => []
          | b2 :: r2 =>
            if is_continuation b2
            then
              match r2 with
              | [] => []
              | b3 :: r3 =>
                if is_continuation b3
                then ((b0 - 0xF0) * 262144 + (b1 - 0x80) * 4096
                      + (b2 - 0x80) * 64 + (b3 - 0x80))
                       :: utf8_decode_ignore r3
                else utf8_decode_ignore r2
              end
            else utf8_decode_ignore r1
          end
      end
    else utf8_decode_ignore r0
  end.

(** [bytearray.decode(errors="ignore")]: the codec defaults to UTF-8. *)
Definition decode_ignore (bs : list byte) : pystr :=
  utf8_decode_ignore (map byte_to_Z bs).

Definition is_surrogate (c : Z) : bool := (0xD800 <=? c) && (c <=? 0xDFFF).

(** The UTF-8 code units of one code point; [None] for a surrogate, which
    the strict encoder refuses. *)
Definition utf8_units (c : Z) : option (list Z) :=
  if c <? 0 then None
  else if c <? 0x80 then Some [c]
  else if c <? 0x800 then Some [0xC0 + c / 64; 0x80 + c mod 64]
  else if c <? 0x10000 then
    if is_surrogate c then None
    else Some [0xE0 + c / 4096; 0x80 + (c / 64) mod 64; 0x80 + c mod 64]
  else if c <? 0x110000 then
    Some [0xF0 + c / 262144; 0x80 + (c / 4096) mod 64;
          0x80 + (c / 64) mod 64; 0x80 + c mod 64]
  else None.

(** The UTF-16 little-endian bytes of one code point. *)
Definition utf16le_units (c : Z) : option (list Z) :=
  if c <? 0 then None
  else if c <? 0x10000 then
    if is_surrogate c then None
    else Some [c mod 256; c / 256]
  else if c <? 0x110000 then
    let hi := 0xD800 + (c - 0x10000) / 1024 in
    let lo := 0xDC00 + (c - 0x10000) mod 1024 in
    Some [hi mod 256; hi / 256; lo mod 256; lo / 256]
  else None.

Fixpoint encode_with (units : Z -> option (list Z)) (s : pystr)
  : option (list Z) :=
  match s with
  | [] => Some []
  | c :: s' =>
      match units c, encode_with units s' with
      | Some u, Some r => Some (u ++ r)
      | _, _ => None
      end
  end.

(** The two codecs [sprintf] and [printf] name. *)
Inductive encoding : Type := utf_8 | utf_16le.

(** [s.encode(enc)]; a string the codec cannot encode raises
    [UnicodeEncodeError]. *)
Definition encode (enc : encoding) (s : pystr) : PyResult (list byte) :=
  match encode_with (match enc with
                     | utf_8 => utf8_units
                     | utf_16le => utf16le_units
                     end) s with
  | Some zs => Val (map byte_of_Z zs)
  | None => Exn UnicodeEncodeError
  end.

(** ** Numbers as text *)

Definition digit_char (upper : bool) (d : Z) : Z :=
  if d <? 10 then 48 + d
  else (if upper then 65 else 97) + (d - 10).

Fixpoint digits_loop (upper : bool) (base : Z) (fuel : nat) (n : Z)
    (acc : pystr) : pystr :=
  match fuel with
  | O => acc
  | S fuel' =>
      let acc' := digit_char upper (n mod base) :: acc in
      if n / base =? 0 then acc'
      else digits_loop upper base fuel' (n / base) acc'
  end.

(** The digits of [n >= 0] in [base]; a number has at most one digit per
    bit, which bounds the loop. *)
Definition digits (upper : bool) (base : Z) (n : Z) : pystr :=
  digits_loop upper base (S (Z.to_nat (Z.log2 n))) n [].

Definition sign_of (z : Z) : pystr := if z <? 0 then py "-" else [].

(** [str(z)] for an int. *)
Definition str_of_int (z : Z) : pystr := sign_of z ++ digits false 10 (Z.abs z).

(** [f'{z:#x}'] *)
Definition format_hash_x (z : Z) : pystr :=
  sign_of z ++ py "0x" ++ digits false 16 (Z.abs z).

(** [f'{z:#0{width}x}']: sign and [0x] first, then zeros up to [width]
    characters in all; a negative width is not a format specifier. *)
Definition format_hash_0_x (width : Z) (z : Z) : PyResult pystr :=
  if width <? 0 then Exn ValueError
  else
    let ds := digits false 16 (Z.abs z) in
    let head := sign_of z ++ py "0x" in
    Val (head
        ++ repeat 48 (Z.to_nat width - length head - length ds)%nat
        ++ ds).

(** ** The emulator state *)

Inductive loglevel : Type := LogDebug | LogInfo.

(** What of [ql] the utilities read and write: [ql.arch.bits],
    [ql.arch.pointersize], [ql.verbose], the mapped bytes of [ql.mem], the
    strings given to [ql.os.stats.log_string], the bytes written to
    [ql.os.stdout], and the lines given to [ql.log]. *)
Record Qiling : Type := mkQiling {
  arch_bits : Z;
  arch_pointersize : Z;
  verbose : Z;
  mem : gmap Z byte;
  stats : list pystr;
  stdout : list byte;
  log : list (loglevel * pystr)
}.

Definition set_mem (m : gmap Z byte) (ql : Qiling) : Qiling :=
  mkQiling (arch_bits ql) (arch_pointersize ql) (verbose ql) m
           (stats ql) (stdout ql) (log ql).

(** [ql.os.stats.log_string(s)] *)
Definition stats_log_string (s : pystr) (ql : Qiling) : Qiling :=
  mkQiling (arch_bits ql) (arch_pointersize ql) (verbose ql) (mem ql)
           (stats ql ++ [s]) (stdout ql) (log ql).

(** [ql.os.stdout.write(bs)] *)
Definition stdout_write (bs : list byte) (ql : Qiling) : Qiling :=
  mkQiling (arch_bits ql) (arch_pointersize ql) (verbose ql) (mem ql)
           (stats ql) (stdout ql ++ bs) (log ql).

(** [ql.log.debug(line)] and [ql.log.info(line)] *)
Definition log_emit (lvl : loglevel) (line : pystr) (ql : Qiling) : Qiling :=
  mkQiling (arch_bits ql) (arch_pointersize ql) (verbose ql) (mem ql)
           (stats ql) (stdout ql) (log ql ++ [(lvl, line)]).

(** Methods: state in, state and outcome out. The state survives an
    exception. *)
Definition StateM (St A : Type) : Type := St -> St * Result A.

Definition ret {St A} (a : A) : StateM St A := fun st => (st, Ok a).
Definition raise {St A} (e : exn) : StateM St A := fun st => (st, Raise e).
Definition out_of_fuel {St A} : StateM St A := fun st => (st, OutOfFuel).
Definition lift {St A} (r : PyResult A) : StateM St A :=
  fun st => (st, of_py r).
Definition gets {St A} (f : St -> A) : StateM St A := fun st => (st, Ok (f st)).
Definition modify {St} (f : St -> St) : StateM St unit := fun st => (f st, Ok tt).

Definition bind {St A B} (m : StateM St A) (k : A -> StateM St B)
  : StateM St B :=
  fun st =>
    match m st with
    | (st', Ok a) => k a st'
    | (st', Raise e) => (st', Raise e)
    | (st', OutOfFuel) => (st', OutOfFuel)
    end.

Notation "x <- m ;; k" := (bind m (fun x => k))
  (at level 100, m at next level, right associativity).
Notation "m ;;; k" := (bind m (fun _ => k))
  (at level 100, right associativity).

(** A method of [QlOsUtils] that touches [ql] only. *)
Abbreviation M := (StateM Qiling).

(** ** Guest memory *)

Fixpoint read_bytes (m : gmap Z byte) (a : Z) (n : nat) : option (list byte) :=
  match n with
  | O => Some []
  | S n' =>
      match m !! a, read_bytes m (a + 1) n' with
      | Some b, Some bs => Some (b :: bs)
      | _, _ => None
      end
  end.

Fixpoint write_bytes (m : gmap Z byte) (a : Z) (bs : list byte)
  : option (gmap Z byte) :=
  match bs with
  | [] => Some m
  | b :: bs' =>
      match m !! a with
      | Some _ => write_bytes (<[a := b]> m) (a + 1) bs'
      | None => None
      end
  end.

(** [ql.mem.read(address, size)]: fails on an address that is not mapped. *)
Definition mem_read (address : Z) (size : nat) : M (list byte) :=
  fun ql =>
    match read_bytes (mem ql) address size with
    | Some bs => (ql, Ok bs)
    | None => (ql, Raise MemoryAccessError)
    end.

(** [ql.mem.write(address, data)]: fails on an address that is not mapped. *)
Definition mem_write (address : Z) (data : list byte) : M unit :=
  fun ql =>
    match write_bytes (mem ql) address data with
    | Some m' => (set_mem m' ql, Ok tt)
    | None => (ql, Raise MemoryAccessError)
    end.

(** ** String extraction *)

(** The [while char != terminator] loop of [read_string]; [fuel] bounds the
    number of tests of the loop condition. *)
Fixpoint read_string_loop (fuel : nat) (address : Z) (terminator : list byte)
    (charlen : nat) (result char : list byte) : M (list byte) :=
  match fuel with
  | O => out_of_fuel
  | S fuel' =>
      if decide (char = terminator) then ret result
      else
        let address := address + Z.of_nat charlen in
        let result := result ++ char in
        char <- mem_read address charlen ;;
        read_string_loop fuel' address terminator charlen result char
  end.

Definition read_string (fuel : nat) (address : Z) (terminator : list byte)
  : M pystr :=
  let result := [] in
  let charlen := length terminator in
  char <- mem_read address charlen ;;
  result <- read_string_loop fuel address terminator charlen result char ;;
  ret (decode_ignore result).

Definition read_wstring (fuel : nat) (address : Z) : M pystr :=
  s <- read_string fuel address [x00; x00] ;;
  let s := replace s [0] [] in
  modify (stats_log_string s) ;;;
  ret s.

Definition read_cstring (fuel : nat) (address : Z) : M pystr :=
  s <- read_string fuel address [x00] ;;
  modify (stats_log_string s) ;;;
  ret s.

(** ** Invocation tracing *)

Definition ELLIPSIS_PREF : pystr := Eval cbv in py "__qlva_".

(** The [ret] argument of [print_function]: [Union[int, str, None]]. *)
Inductive retval : Type :=
  | RetInt (z : Z)
  | RetStr (s : pystr)
  | RetNone.

Definition __assign_arg (name value : pystr) : pystr :=
  let name := if startswith name ELLIPSIS_PREF then [] else name in
  match name with
  | [] => value
  | _ :: _ => name ++ py " = " ++ value
  end.

Section Tracer.

(** [QL_VERBOSE.DEBUG], a constant of [qiling.const]. *)
Variable QL_VERBOSE_DEBUG : Z.

Definition print_function (address : Z) (fname : pystr)
    (pargs : list (pystr * pystr)) (ret_ : retval) (passthru : bool)
  : M unit :=
  let fname := if startswith fname (py "hook_") then drop 5 fname else fname in
  let fargs :=
    join (py ", ") (map (fun '(name, value) => __assign_arg name value) pargs) in
  let ret_ :=
    match ret_ with
    | RetInt z => Some (format_hash_x z)
    | RetStr s => Some s
    | RetNone => None
    end in
  let fret := match ret_ with Some r => py " = " ++ r | None => [] end in
  let fpass := if passthru then py " (PASSTHRU)" else [] in
  debug <- gets (fun ql => QL_VERBOSE_DEBUG <=? verbose ql) ;;
  bits <- gets arch_bits ;;
  faddr <- (if debug : bool
            then a <- lift (format_hash_0_x (bits / 4 + 2) address) ;;
                 ret (a ++ py ": ")
            else ret []) ;;
  let line := faddr ++ fname ++ py "(" ++ fargs ++ py ")" ++ fret ++ fpass in
  if debug then modify (log_emit LogDebug line)
  else modify (log_emit LogInfo line).

End Tracer.

(** ** Printf-style formatting: [format % tuple(args)] *)

(** An element of the argument list: a raw pointer-sized integer, or the
    text a [%s] slot was resolved to. *)
Inductive pyval : Type :=
  | PInt (z : Z)
  | PStr (s : pystr).

Definition chr (a : ascii) : Z := Z.of_N (N_of_ascii a).

Record fmt_arg : Type := mkFmtArg {
  F_LJUST : bool;
  F_SIGN : bool;
  F_BLANK : bool;
  F_ALT : bool;
  F_ZERO : bool;
  width : option Z;
  prec : option Z
}.

Definition fmt_arg0 : fmt_arg :=
  mkFmtArg false false false false false None None.

Definition set_flag (c : Z) (a : fmt_arg) : option fmt_arg :=
  let '(mkFmtArg lj sg bl al ze w p) := a in
  if c =? chr "-" then Some (mkFmtArg true sg bl al ze w p)
  else if c =? chr "+" then Some (mkFmtArg lj true bl al ze w p)
  else if c =? chr " " then Some (mkFmtArg lj sg true al ze w p)
  else if c =? chr "#" then Some (mkFmtArg lj sg bl true ze w p)
  else if c =? chr "0" then Some (mkFmtArg lj sg bl al true w p)
  else None.

Definition set_width (w : Z) (a : fmt_arg) : fmt_arg :=
  mkFmtArg (F_LJUST a) (F_SIGN a) (F_BLANK a) (F_ALT a) (F_ZERO a) (Some w) (prec a).

Definition set_ljust (a : fmt_arg) : fmt_arg :=
  mkFmtArg true (F_SIGN a) (F_BLANK a) (F_ALT a) (F_ZERO a) (width a) (prec a).

Definition set_prec (p : Z) (a : fmt_arg) : fmt_arg :=
  mkFmtArg (F_LJUST a) (F_SIGN a) (F_BLANK a) (F_ALT a) (F_ZERO a) (width a) (Some p).

Definition is_digit (c : Z) : bool := (chr "0" <=? c) && (c <=? chr "9").

Definition PY_SSIZE_T_MAX : Z := 2 ^ 63 - 1.
Definition INT_MAX : Z := 2 ^ 31 - 1.

(** Where the reader of a format string stands. *)
Inductive fmt_state : Type :=
  | SText                          (* between specifiers *)
  | SPercent                       (* just after [%] *)
  | SFlags (a : fmt_arg)           (* in the flags *)
  | SWidth (a : fmt_arg)           (* in the digits of the width *)
  | SStarWidth (a : fmt_arg)       (* after a [*] width *)
  | SDot (a : fmt_arg)             (* after the [.] of the precision *)
  | SPrec (a : fmt_arg)            (* in the digits of the precision *)
  | SStarPrec (a : fmt_arg)        (* after a [*] precision *)
  | SLength (a : fmt_arg).         (* after one of [h], [l], [L] *)

Definition is_plain (a : fmt_arg) : bool :=
  match width a, prec a with
  | None, None => true
  | _, _ => false
  end.

(** Sign, base prefix and digits of an int conversion without width or
    precision. *)
Definition format_long (a : fmt_arg) (c : Z) (z : Z) : pystr :=
  let sign :=
    if z <? 0 then py "-"
    else if F_SIGN a then py "+"
    else if F_BLANK a then py " "
    else [] in
  let mag := Z.abs z in
  if c =? chr "x" then sign ++ (if F_ALT a then py "0x" else []) ++ digits false 16 mag
  else if c =? chr "X" then sign ++ (if F_ALT a then py "0X" else []) ++ digits true 16 mag
  else if c =? chr "o" then sign ++ (if F_ALT a then py "0o" else []) ++ digits false 8 mag
  else sign ++ digits false 10 mag.

Definition is_str_conv (c : Z) : bool :=
  (c =? chr "s") || (c =? chr "r") || (c =? chr "a").
Definition is_long_conv (c : Z) : bool :=
  (c =? chr "i") || (c =? chr "d") || (c =? chr "u")
  || (c =? chr "o") || (c =? chr "x") || (c =? chr "X").
Definition is_float_conv (c : Z) : bool :=
  (c =? chr "e") || (c =? chr "E") || (c =? chr "f")
  || (c =? chr "F") || (c =? chr "g") || (c =? chr "G").

Section Formatting.

(** What the host's [%] operator produces where this development does not
    spell it out: a conversion with a width or a precision, a float
    conversion of an int, and [repr]/[ascii] of a string. *)
Variable host_format : fmt_arg -> Z -> pyval -> PyResult pystr.

(** The text of argument [v] under conversion [c]. *)
Definition format_value (a : fmt_arg) (c : Z) (v : pyval) : PyResult pystr :=
  if is_str_conv c then
    match v with
    | PInt z => if is_plain a then Val (str_of_int z) else host_format a c v
    | PStr s =>
        if (c =? chr "s") && is_plain a then Val s else host_format a c v
    end
  else if is_long_conv c then
    match v with
    | PInt z => if is_plain a then Val (format_long a c z) else host_format a c v
    | PStr _ => Exn TypeError
    end
  else if is_float_conv c then
    match v with
    | PInt _ => host_format a c v
    | PStr _ => Exn TypeError
    end
  else if c =? chr "c" then
    match v with
    | PInt z =>
        if (z <? 0) || (0x10FFFF <? z) then Exn OverflowError
        else if is_plain a then Val [z] else host_format a c v
    | PStr s =>
        if (length s =? 1)%nat
        then (if is_plain a then Val s else host_format a c v)
        else Exn TypeError
    end
  else Exn ValueError.

(** The conversion character [c]: take the next argument and write it. *)
Definition fmt_convert (a : fmt_arg) (c : Z) (next : option pyval)
    (out : pystr) : PyResult (fmt_state * bool * pystr) :=
  match next with
  | None => Exn TypeError
  | Some v =>
      match format_value a c v with
      | Val s => Val (SText, true, out ++ s)
      | Exn e => Exn e
      end
  end.

Definition fmt_after_prec (a : fmt_arg) (c : Z) (next : option pyval)
    (out : pystr) : PyResult (fmt_state * bool * pystr) :=
  if (c =? chr "h") || (c =? chr "l") || (c =? chr "L")
  then Val (SLength a, false, out)
  else fmt_convert a c next out.

Definition fmt_after_width (a : fmt_arg) (c : Z) (next : option pyval)
    (out : pystr) : PyResult (fmt_state * bool * pystr) :=
  if c =? chr "."
  then Val (SDot (set_prec 0 a), false, out)
  else fmt_after_prec a c next out.

(** A character [c] where a flag may stand: a flag, else the width. *)
Definition fmt_flags (a : fmt_arg) (c : Z) (next : option pyval)
    (out : pystr) : PyResult (fmt_state * bool * pystr) :=
  match set_flag c a with
  | Some a' => Val (SFlags a', false, out)
  | None =>
      if c =? chr "*" then
        match next with
        | None => Exn TypeError
        | Some (PStr _) => Exn TypeError
        | Some (PInt w) =>
            if (w <? - PY_SSIZE_T_MAX - 1) || (PY_SSIZE_T_MAX <? w)
            then Exn OverflowError
            else if w <? 0
            then Val (SStarWidth (set_width (- w) (set_ljust a)), true, out)
            else Val (SStarWidth (set_width w a), true, out)
        end
      else if is_digit c
      then Val (SWidth (set_width (c - chr "0") a), false, out)
      else fmt_after_width a c next out
  end.

(** One character [c] of the format; [next] is the first argument not yet
    used. The outcome holds the new state, whether [next] was used, and
    the output so far. A [%] directly after a [%] is a literal percent
    sign; a [(] there asks for a mapping, which a tuple is not. *)
Definition fmt_step (st : fmt_state) (c : Z) (next : option pyval)
    (out : pystr) : PyResult (fmt_state * bool * pystr) :=
  match st with
  | SText =>
      if c =? chr "%" then Val (SPercent, false, out)
      else Val (SText, false, out ++ [c])
  | SPercent =>
      if c =? chr "%" then Val (SText, false, out ++ [c])
      else if c =? chr "(" then Exn TypeError
      else fmt_flags fmt_arg0 c next out
  | SFlags a => fmt_flags a c next out
  | SWidth a =>
      if is_digit c then
        let w := default 0 (width a) in
        if (PY_SSIZE_T_MAX - (c - chr "0")) / 10 <? w
        then Exn ValueError
        else Val (SWidth (set_width (w * 10 + (c - chr "0")) a), false, out)
      else fmt_after_width a c next out
  | SStarWidth a => fmt_after_width a c next out
  | SDot a =>
      if c =? chr "*" then
        match next with
        | None => Exn TypeError
        | Some (PStr _) => Exn TypeError
        | Some (PInt p) =>
            if (p <? - INT_MAX - 1) || (INT_MAX <? p)
            then Exn OverflowError
            else Val (SStarPrec (set_prec (Z.max 0 p) a), true, out)
        end
      else if is_digit c
      then Val (SPrec (set_prec (c - chr "0") a), false, out)
      else fmt_after_prec a c next out
  | SPrec a =>
      if is_digit c then
        let p := default 0 (prec a) in
        if (INT_MAX - (c - chr "0")) / 10 <? p
        then Exn ValueError
        else Val (SPrec (set_prec (p * 10 + (c - chr "0")) a), false, out)
      else fmt_after_prec a c next out
  | SStarPrec a => fmt_after_prec a c next out
  | SLength a => fmt_convert a c next out
  end.

(** The format is read once, left to right. At its end a specifier left
    open is an incomplete format, and an argument left over means that not
    all arguments were converted. *)
Fixpoint fmt_run (st : fmt_state) (args : list pyval) (out : pystr)
    (fmt : pystr) : PyResult pystr :=
  match fmt with
  | [] =>
      match st with
      | SText =>
          match args with
          | [] => Val out
          | _ :: _ => Exn TypeError
          end
      | _ => Exn ValueError
      end
  | c :: fmt' =>
      match fmt_step st c (head args) out with
      | Val (st', used, out') =>
          fmt_run st' (if used : bool then tail args else args) out' fmt'
      | Exn e => Exn e
      end
  end.

(** [format % tuple(args)] *)
Definition py_mod (format : pystr) (args : list pyval) : PyResult pystr :=
  fmt_run SText args [] format.

End Formatting.

(** ** The format interpreter and its sinks *)

(** A method that also takes the argument list: the list is a mutable
    object, so its contents are part of the state. *)
Abbreviation MA := (StateM (Qiling * list pyval)).

(** Run a method of [ql] inside a method holding the argument list. *)
Definition on_ql {A} (m : M A) : MA A :=
  fun '(ql, args) =>
    let '(ql', r) := m ql in ((ql', args), r).

(** [args[i]] *)
Definition args_getitem (i : nat) : MA pyval :=
  fun '(ql, args) =>
    match args !! i with
    | Some v => ((ql, args), Ok v)
    | None => ((ql, args), Raise IndexError)
    end.

(** [args[i] = v] *)
Definition args_setitem (i : nat) (v : pyval) : MA unit :=
  fun '(ql, args) =>
    if (i <? length args)%nat
    then ((ql, <[i := v]> args), Ok tt)
    else ((ql, args), Raise IndexError).

(** [tuple(args)] *)
Definition args_tuple : MA (list pyval) :=
  fun '(ql, args) => ((ql, args), Ok args).

(** [for i, f in enumerate(fmtstr): body] *)
Fixpoint for_enumerate {St} (i : nat) (fmtstr : list pystr)
    (body : nat -> pystr -> StateM St unit) : StateM St unit :=
  match fmtstr with
  | [] => ret tt
  | f :: rest => body i f ;;; for_enumerate (S i) rest body
  end.

(** [[f(i) for i in range(count)]] *)
Fixpoint list_comprehension {St A} (f : nat -> StateM St A)
    (range : list nat) : StateM St (list A) :=
  match range with
  | [] => ret []
  | i :: rest =>
      x <- f i ;;
      xs <- list_comprehension f rest ;;
      ret (x :: xs)
  end.

Section QlOsUtils.

(** What the host's [%] operator produces where [format_value] does not
    spell it out. *)
Variable host_format : fmt_arg -> Z -> pyval -> PyResult pystr.

(** [ql.mem.read_ptr(address)], a method of the memory subsystem: a read
    that leaves [ql] as it is. *)
Variable read_ptr : Qiling -> Z -> PyResult Z.

Definition mem_read_ptr (address : Z) : M Z :=
  fun ql => lift (read_ptr ql address) ql.

(** The reader [__common_printf] picks, applied to an element of [args];
    an element that is not an integer is no address. *)
Definition read_string_at (fuel : nat) (wstring : bool) (a : pyval)
  : MA pystr :=
  match a with
  | PInt address =>
      on_ql (if wstring then read_wstring fuel address
             else read_cstring fuel address)
  | PStr _ => raise TypeError
  end.

(** The loop of [__common_printf] over the segments after each [%]. *)
Definition resolve_strings (fuel : nat) (wstring : bool)
    (fmtstr : list pystr) : MA unit :=
  let read_string := read_string_at fuel wstring in
  for_enumerate 0 fmtstr (fun i f =>
    if startswith f (py "s") then
      a <- args_getitem i ;;
      s <- read_string a ;;
      args_setitem i (PStr s)
    else ret tt).

Definition __common_printf (fuel : nat) (format : pystr) (wstring : bool)
  : MA pystr :=
  parts <- lift (split format (py "%")) ;;
  let fmtstr := drop 1 parts in
  resolve_strings fuel wstring fmtstr ;;;
  let out := replace format (py "%llx") (py "%x") in
  let out := replace out (py "%p") (py "%#x") in
  args <- args_tuple ;;
  lift (py_mod host_format out args).

Definition va_list (format : pystr) (ptr : Z) : M (list pyval) :=
  fun ql =>
    let count := count format (py "%") in
    list_comprehension
      (fun i =>
         v <- mem_read_ptr (ptr + Z.of_nat i * arch_pointersize ql) ;;
         ret (PInt v))
      (seq 0 count) ql.

Definition sprintf (fuel : nat) (buff : Z) (format : pystr) (wstring : bool)
  : MA Z :=
  out <- __common_printf fuel format wstring ;;
  let enc := if wstring then utf_16le else utf_8 in
  data <- lift (encode enc (out ++ [0])) ;;
  on_ql (mem_write buff data) ;;;
  ret (Z.of_nat (length out)).

Definition printf (fuel : nat) (format : pystr) (wstring : bool) : MA Z :=
  out <- __common_printf fuel format wstring ;;
  let enc := utf_8 in
  data <- lift (encode enc out) ;;
  on_ql (modify (stdout_write data)) ;;;
  ret (Z.of_nat (length out)).

End QlOsUtils.

(** ** Concrete machines for the examples *)

(** Stands for the host's extended formats in the examples; none of them
    uses a width, a precision, a float conversion or [repr]. *)
Definition host_plain (a : fmt_arg) (c : Z) (v : pyval) : PyResult pystr :=
  Exn ValueError.

Fixpoint store_bytes (m : gmap Z byte) (a : Z) (bs : list byte) : gmap Z byte :=
  match bs with
  | [] => m
  | b :: bs' => <[a := b]> (store_bytes m (a + 1) bs')
  end.

Definition le_value (bs : list byte) : Z :=
  fold_right (fun b acc => byte_to_Z b + 256 * acc) 0 bs.

(** A little-endian [read_ptr]. *)
Definition read_ptr_le (ql : Qiling) (a : Z) : PyResult Z :=
  match read_bytes (mem ql) a (Z.to_nat (arch_pointersize ql)) with
  | Some bs => Val (le_value bs)
  | None => Exn MemoryAccessError
  end.

(** A 32-bit machine at the default verbosity with [bs] mapped at [a]. *)
Definition machine (a : Z) (bs : list byte) : Qiling :=
  mkQiling 32 4 1 (store_bytes ∅ a bs) [] [] [].

(** [sub] occurs in [b] as a run of consecutive bytes. *)
Definition occurs_in (sub b : list byte) : Prop :=
  exists p q, b = p ++ sub ++ q.

(** What the reader chosen by the [wstring] flag returns for [address]:
    [read_wstring] when the flag is set, [read_cstring] otherwise. *)
Definition decoded_at (fuel : nat) (wstring : bool) (ql : Qiling)
    (address : Z) : Result pystr :=
  snd ((if wstring then read_wstring fuel address
        else read_cstring fuel address) ql).

(** The format after the two rewrites of [__common_printf]. *)
Definition normalized (format : pystr) : pystr :=
  replace (replace format (py "%llx") (py "%x")) (py "%p") (py "%#x").

(** The segments after each [%]: [format.split("%")[1:]]. *)
Definition segments (format : pystr) : list pystr :=
  drop 1 (split_from (py "%") 0 format).

(** The format in the words of the specification: the text [head] before
    the first [%], then each segment of [segs] behind its own [%]. *)
Definition marked_format (head : pystr) (segs : list pystr) : pystr :=
  head ++ flat_map (fun seg => 37 :: seg) segs.

(** [f] replaces every occurrence of [old] by [new], leftmost first: a
    string without [old] is unchanged, and behind a leftmost occurrence the
    replacement goes on. *)
Definition replaces_every (old new : pystr) (f : pystr -> pystr) : Prop :=
  (forall s, contains s old = false -> f s = s)
  /\ (forall a b, contains a old = false ->
        f (a ++ old ++ b) = a ++ new ++ f b).

(** ** The arguments a format asks for *)

(** The reader's position in a specifier, without the values read. *)
Inductive phase : Type :=
  | PhText | PhPercent | PhFlags | PhWidth | PhStarWidth
  | PhDot | PhPrec | PhStarPrec | PhLength.

Definition phase_of (st : fmt_state) : phase :=
  match st with
  | SText => PhText
  | SPercent => PhPercent
  | SFlags _ => PhFlags
  | SWidth _ => PhWidth
  | SStarWidth _ => PhStarWidth
  | SDot _ => PhDot
  | SPrec _ => PhPrec
  | SStarPrec _ => PhStarPrec
  | SLength _ => PhLength
  end.

Definition is_flag (c : Z) : bool :=
  (c =? chr "-") || (c =? chr "+") || (c =? chr " ")
  || (c =? chr "#") || (c =? chr "0").

Definition is_length_modifier (c : Z) : bool :=
  (c =? chr "h") || (c =? chr "l") || (c =? chr "L").

(** The phase after character [c] and the number of arguments [c] asks
    for: one for a [*] width, one for a [*] precision, one for the
    conversion character; none for a literal [%%]. *)
Definition phase_step (ph : phase) (c : Z) : phase * nat :=
  let after_prec :=
    if is_length_modifier c then (PhLength, 0%nat) else (PhText, 1%nat) in
  let after_width :=
    if c =? chr "." then (PhDot, 0%nat) else after_prec in
  let flags :=
    if is_flag c then (PhFlags, 0%nat)
    else if c =? chr "*" then (PhStarWidth, 1%nat)
    else if is_digit c then (PhWidth, 0%nat)
    else after_width in
  match ph with
  | PhText => if c =? chr "%" then (PhPercent, 0%nat) else (PhText, 0%nat)
  | PhPercent => if c =? chr "%" then (PhText, 0%nat) else flags
  | PhFlags => flags
  | PhWidth => if is_digit c then (PhWidth, 0%nat) else after_width
  | PhStarWidth => after_width
  | PhDot =>
      if c =? chr "*" then (PhStarPrec, 1%nat)
      else if is_digit c then (PhPrec, 0%nat)
      else after_prec
  | PhPrec => if is_digit c then (PhPrec, 0%nat) else after_prec
  | PhStarPrec => after_prec
  | PhLength => (PhText, 1%nat)
  end.

Fixpoint demand_from (ph : phase) (fmt : pystr) : nat :=
  match fmt with
  | [] => 0%nat
  | c :: fmt' =>
      let '(ph', n) := phase_step ph c in
      (n + demand_from ph' fmt')%nat
  end.

(** The number of arguments the specifiers of [format] consume. *)
Definition fmt_demand (format : pystr) : nat := demand_from PhText format.

(** ** The trace line, in the words of the specification *)

(** A pair is rendered as [name = value]; a pair whose name is empty or
    starts with the ellipsis prefix is rendered as the bare value. *)
Definition trace_pair (p : pystr * pystr) : pystr :=
  let '(name, value) := p in
  if (length name =? 0)%nat || startswith name ELLIPSIS_PREF
  then value
  else name ++ py " = " ++ value.


(** The line without the address prefix: the name without a leading
    [hook_], the pairs joined by a comma and a blank, then [ = ret] when a
    return value is present, an integer one in hexadecimal, then
    [ (PASSTHRU)] when the flag is set. *)
Definition trace_line (render : pystr * pystr -> pystr) (fname : pystr)
    (pargs : list (pystr * pystr)) (ret_ : retval) (passthru : bool) : pystr :=
  (if startswith fname (py "hook_") then drop 5 fname else fname)
  ++ py "(" ++ join (py ", ") (map render pargs) ++ py ")"
  ++ match ret_ with
     | RetInt z => py " = " ++ format_hash_x z
     | RetStr s => py " = " ++ s
     | RetNone => []
     end
  ++ (if passthru then py " (PASSTHRU)" else []).

(** The codec [sprintf] picks and the encoded null character it appends. *)
Definition codec (wstring : bool) : encoding :=
  if wstring then utf_16le else utf_8.

Definition terminator (wstring : bool) : list byte :=
  if wstring then [x00; x00] else [x00].

(** The text [sprintf] can be read back from: no null character, and for a
    wide buffer characters of the ASCII range only. *)
Definition readable_back (wstring : bool) (out : pystr) : Prop :=
  if wstring then Forall (fun c => 1 <= c < 128) out
  else Forall (fun c => c <> 0) out.

(** ** [repr] of a string and [stringify] *)

(** [n] lowercase hexadecimal digits of [z], the most significant first. *)
Definition hex_fixed (n : nat) (z : Z) : pystr :=
  map (fun i => digit_char false ((z / 16 ^ Z.of_nat i) mod 16)) (rev (seq 0 n)).

Section Repr.

(** [str.isprintable] on one character outside ASCII, a table of the
    Unicode database. *)
Variable isprintable : Z -> bool.

(** One character of [repr(s)] between quotes [quote]: the quote and the
    backslash behind a backslash, tab, newline and carriage return as
    [\t], [\n], [\r], other ASCII control characters as [\xhh], printable
    characters as they are, the others as [\xhh], [\uhhhh] or [\Uhhhhhhhh]. *)
Definition repr_char (quote ch : Z) : pystr :=
  if (ch =? quote) || (ch =? 92) then [92; ch]
  else if ch =? 9 then [92; chr "t"]
  else if ch =? 10 then [92; chr "n"]
  else if ch =? 13 then [92; chr "r"]
  else if (ch <? 32) || (ch =? 127) then [92; chr "x"] ++ hex_fixed 2 ch
  else if ch <? 127 then [ch]
  else if isprintable ch then [ch]
  else if ch <=? 255 then [92; chr "x"] ++ hex_fixed 2 ch
  else if ch <=? 65535 then [92; chr "u"] ++ hex_fixed 4 ch
  else [92; chr "U"] ++ hex_fixed 8 ch.

(** [repr(s)]: single quotes, unless [s] holds a single quote and no double
    quote. *)
Definition py_repr (s : pystr) : pystr :=
  let squote := existsb (fun c => c =? 39) s in
  let dquote := existsb (fun c => c =? 34) s in
  let quote := if squote && negb dquote then 34 else 39 in
  [quote] ++ flat_map (repr_char quote) s ++ [quote].

(** [r[1:-1]] *)
Definition slice_1_m1 (r : pystr) : pystr := take (length r - 2) (drop 1 r).

Definition stringify (s : pystr) : pystr :=
  [34] ++ slice_1_m1 (py_repr s) ++ [34].

End Repr.

(** ** GUIDs *)

(** A [uuid.UUID]: its 128-bit integer. *)
Record UUID : Type := mkUUID { uuid_int : Z }.

Fixpoint le_bytes (n : nat) (z : Z) : list byte :=
  match n with
  | O => []
  | S n' => byte_of_Z (z mod 256) :: le_bytes n' (z / 256)
  end.

(** [int.from_bytes(bs)] and [z.to_bytes(n)], big-endian. *)
Definition int_from_bytes (bs : list byte) : Z := le_value (rev bs).
Definition int_to_bytes (n : nat) (z : Z) : list byte := rev (le_bytes n z).

(** [b[3::-1] + b[5:3:-1] + b[7:5:-1] + b[8:]]: the first three fields of
    a GUID change their byte order, the last eight bytes stay. *)
Definition swap_fields (b : list byte) : list byte :=
  rev (take 4 b) ++ rev (take 2 (drop 4 b)) ++ rev (take 2 (drop 6 b))
  ++ drop 8 b.

(** [UUID(bytes_le=b)] *)
Definition UUID_of_bytes_le (b : list byte) : PyResult UUID :=
  if (length b =? 16)%nat then Val (mkUUID (int_from_bytes (swap_fields b)))
  else Exn ValueError.

(** [u.bytes_le] *)
Definition UUID_bytes_le (u : UUID) : list byte :=
  swap_fields (int_to_bytes 16 (uuid_int u)).

Definition read_guid (address : Z) : M UUID :=
  raw_guid <- mem_read address 16 ;;
  lift (UUID_of_bytes_le raw_guid).

(** ** Names for variadic arguments *)

(** [f'{QlOsUtils.ELLIPSIS_PREF}{i}'] *)
Definition ellipsis_name (i : nat) : pystr :=
  ELLIPSIS_PREF ++ str_of_int (Z.of_nat i).

(** [params.update((name_i, a) for i, a in enumerate(args))] from index [i]
    on: the pairs are stored one after the other. *)
Fixpoint update_from {V} (i : nat) (args : list V) (params : gmap pystr V)
  : gmap pystr V :=
  match args with
  | [] => params
  | a :: rest => update_from (S i) rest (<[ellipsis_name i := a]> params)
  end.

(** [update_ellipsis(params, args)]: the dict [params] after the call, as
    the finite map of its items. *)
Definition update_ellipsis {V} (params : gmap pystr V) (args : list V)
  : gmap pystr V :=
  update_from 0 args params.

(** ** Statements about states *)

(** [ql'] is [ql] but for the strings reported to the statistics. *)
Definition only_stats_differ (ql ql' : Qiling) : Prop :=
  arch_bits ql' = arch_bits ql
  /\ arch_pointersize ql' = arch_pointersize ql
  /\ verbose ql' = verbose ql
  /\ mem ql' = mem ql
  /\ stdout ql' = stdout ql
  /\ log ql' = log ql
  /\ exists reported, stats ql' = stats ql ++ reported.

(** The arguments a specifier left open still asks for, when no [*]
    follows: one, its conversion. *)
Definition pending (ph : phase) : nat :=
  match ph with
  | PhText => 0%nat
  | _ => 1%nat
  end.

(** The value of a string of digits in [base]. *)
Definition digit_value (c : Z) : Z :=
  if c <? 58 then c - 48 else if c <? 97 then c - 55 else c - 87.

Definition digits_value (base : Z) (ds : pystr) : Z :=
  fold_left (fun acc c => acc * base + digit_value c) ds 0.

(** A character [repr] leaves in its output: printable ASCII, or printable
    by the database. *)
Definition printable (isprintable : Z -> bool) (c : Z) : Prop :=
  32 <= c < 127 \/ (127 < c /\ isprintable c = true).

(** A character [repr] copies whatever the quotes are. *)
Definition plain_char (isprintable : Z -> bool) (c : Z) : Prop :=
  printable isprintable c /\ c <> 92.

(** * Properties *)

(** ** Strings *)

Lemma startswith_nil (s : pystr) : startswith s [] = true.
Proof. destruct s; reflexivity. Qed.

Lemma startswith_app (p t : pystr) : startswith (p ++ t) p = true.
Proof.
  induction p as [|c p IH]; simpl.
  - apply startswith_nil.
  - rewrite Z.eqb_refl, IH. reflexivity.
Qed.

(** [split] cuts at exactly the occurrences [count] counts. *)
Lemma split_from_length (sep : pystr) (s : pystr) (skip : nat) :
  length (split_from sep skip s) = S (count_from sep skip s).
Proof.
  revert skip. induction s as [|c s IH]; intros skip.
  - reflexivity.
  - cbn [split_from count_from]. destruct skip as [|k]; [|apply IH].
    destruct (startswith (c :: s) sep).
    + cbn [length]. rewrite IH. reflexivity.
    + specialize (IH 0%nat).
      destruct (split_from sep 0 s) as [|seg segs]; [discriminate IH|].
      rewrite <- IH. reflexivity.
Qed.

(** Counting a one-character pattern is counting that character. *)
Lemma count_from_single (c : Z) (s : pystr) :
  count_from [c] 0 s = length (filter (fun d => d = c) s).
Proof.
  induction s as [|d s IH]; [reflexivity|].
  cbn [count_from startswith length Nat.sub]. rewrite filter_cons.
  rewrite startswith_nil, andb_true_r, IH.
  destruct (decide (d = c)); destruct (Z.eqb_spec c d);
    try congruence; reflexivity.
Qed.

Lemma replace_from_skip (old new o b : pystr) :
  replace_from old new (length o) (o ++ b) = replace_from old new 0 b.
Proof. induction o as [|c o IH]; simpl; [destruct b|]; auto. Qed.

(** A string without the pattern is left as it is. *)
Lemma replace_from_absent (old new s : pystr) :
  contains s old = false -> replace_from old new 0 s = s.
Proof.
  induction s as [|c s IH]; simpl; intros H; [reflexivity|].
  apply orb_false_iff in H as [H1 H2].
  rewrite H1, IH by assumption. reflexivity.
Qed.

Section HeadUnique.

(** Patterns and replacements that begin with a character [c0] which does
    not occur again in them, as [%llx], [%x], [%p] and [%#x] do. *)
Variable c0 : Z.

Lemma startswith_straddle (a o t : pystr) :
  c0 ∉ o ->
  startswith a o = false ->
  startswith (a ++ c0 :: t) o = false.
Proof.
  revert a. induction o as [|d o IH]; intros a Hin H.
  - rewrite startswith_nil in H. discriminate.
  - apply not_elem_of_cons in Hin as [Hd Ho].
    destruct a as [|y a]; simpl in *.
    + destruct (Z.eqb_spec d c0); [congruence|reflexivity].
    + destruct (d =? y); [|reflexivity]. simpl in *. auto.
Qed.

(** The leftmost occurrence is replaced, and the scan goes on behind it. *)
Lemma replace_from_leftmost (o new a b : pystr) :
  c0 ∉ o ->
  contains a (c0 :: o) = false ->
  replace_from (c0 :: o) new 0 (a ++ (c0 :: o) ++ b)
  = a ++ new ++ replace_from (c0 :: o) new 0 b.
Proof.
  intros Hin. induction a as [|x a IH]; intros H.
  - cbn [app replace_from].
    change (c0 :: o ++ b) with ((c0 :: o) ++ b).
    rewrite startswith_app.
    replace (length (c0 :: o) - 1)%nat with (length o) by (simpl; lia).
    rewrite replace_from_skip. reflexivity.
  - cbn [contains] in H. apply orb_false_iff in H as [H1 H2].
    change ((x :: a) ++ (c0 :: o) ++ b) with (x :: (a ++ (c0 :: o) ++ b)).
    cbn [replace_from].
    assert (startswith (x :: a ++ (c0 :: o) ++ b) (c0 :: o) = false) as ->.
    { cbn [startswith] in *. destruct (c0 =? x); [|reflexivity].
      rewrite andb_true_l in *.
      change ((c0 :: o) ++ b) with (c0 :: (o ++ b)).
      apply startswith_straddle; assumption. }
    rewrite IH by assumption. reflexivity.
Qed.

(** Before the first [c0] a replacement changes nothing. *)
Lemma startswith_replace_from (o new t s : pystr) :
  c0 ∉ t ->
  startswith (replace_from (c0 :: o) (c0 :: new) 0 s) t = startswith s t.
Proof.
  revert t. induction s as [|c s IH]; intros t Ht; [reflexivity|].
  destruct t as [|d t]; [rewrite !startswith_nil; reflexivity|].
  apply not_elem_of_cons in Ht as [Hd Ht].
  cbn [replace_from].
  destruct (startswith (c :: s) (c0 :: o)) eqn:E.
  - cbn [startswith] in E. apply andb_true_iff in E as [E _].
    apply Z.eqb_eq in E. subst c. cbn [app startswith].
    destruct (Z.eqb_spec d c0); [congruence|reflexivity].
  - cbn [startswith]. rewrite IH by assumption. reflexivity.
Qed.

Lemma contains_app_no_head (n s sub : pystr) :
  c0 ∉ n ->
  contains (n ++ s) (c0 :: sub) = contains s (c0 :: sub).
Proof.
  intros Hn. induction n as [|d n IH]; [reflexivity|].
  apply not_elem_of_cons in Hn as [Hd Hn].
  cbn [app contains startswith].
  destruct (Z.eqb_spec c0 d); [congruence|]. simpl. auto.
Qed.

(** A pattern [c0 :: q] absent from [s] stays absent when occurrences of
    [c0 :: o] are replaced by [c0 :: n], as long as [n] does not begin as
    [q] does. With [q = o] nothing of the replaced pattern is left. *)
Lemma contains_replace_from (o n q s : pystr) (skip : nat) :
  c0 ∉ n -> c0 ∉ q ->
  (forall t, startswith (n ++ t) q = false) ->
  (q = o \/ contains s (c0 :: q) = false) ->
  contains (replace_from (c0 :: o) (c0 :: n) skip s) (c0 :: q) = false.
Proof.
  intros Hn Hq Hdiv. revert skip.
  induction s as [|c s IH]; intros skip Hs.
  - reflexivity.
  - assert (q = o \/ contains s (c0 :: q) = false) as Hs'.
    { destruct Hs as [->|Hs]; [left; reflexivity|right].
      cbn [contains] in Hs. apply orb_false_iff in Hs as [_ Hs]. exact Hs. }
    cbn [replace_from]. destruct skip as [|k]; [|apply IH; exact Hs'].
    destruct (startswith (c :: s) (c0 :: o)) eqn:E.
    + change ((c0 :: n) ++ ?r) with (c0 :: (n ++ r)).
      cbn [contains startswith]. rewrite Z.eqb_refl, Hdiv. simpl.
      rewrite contains_app_no_head by assumption. apply IH. exact Hs'.
    + cbn [contains]. rewrite IH by exact Hs'. rewrite orb_false_r.
      cbn [startswith]. destruct (Z.eqb_spec c0 c) as [<-|]; [|reflexivity].
      simpl. rewrite startswith_replace_from by assumption.
      destruct Hs as [->|Hs].
      * cbn [startswith] in E. rewrite Z.eqb_refl in E. exact E.
      * cbn [contains startswith] in Hs. rewrite Z.eqb_refl in Hs.
        apply orb_false_iff in Hs as [Hs _]. exact Hs.
Qed.

End HeadUnique.

(** Deleting a one-character pattern leaves none of that character. *)
Lemma replace_single_empty (c : Z) (s : pystr) :
  replace s [c] [] = filter (fun d => d <> c) s.
Proof.
  unfold replace. induction s as [|d s IH]; [reflexivity|].
  cbn [replace_from startswith length Nat.sub app]. rewrite filter_cons.
  rewrite startswith_nil, andb_true_r, IH.
  destruct (decide (d <> c)) as [Hd|Hd]; destruct (Z.eqb_spec c d);
    try reflexivity; exfalso; first [congruence | apply Hd; congruence].
Qed.

(** ** The state monad *)

Lemma bind_Ok_inv {St A B} (m : StateM St A) (k : A -> StateM St B) st st' b :
  bind m k st = (st', Ok b) ->
  exists a st1, m st = (st1, Ok a) /\ k a st1 = (st', Ok b).
Proof.
  unfold bind. destruct (m st) as [st1 [a|e|]]; intros H; try discriminate.
  exists a, st1. split; [reflexivity|exact H].
Qed.

Lemma bind_Ok {St A B} (m : StateM St A) (k : A -> StateM St B) st st1 a :
  m st = (st1, Ok a) -> bind m k st = k a st1.
Proof. unfold bind. intros ->. reflexivity. Qed.

(** ** Guest memory *)

Lemma read_bytes_length m a n bs :
  read_bytes m a n = Some bs -> length bs = n.
Proof.
  revert a bs. induction n as [|n IH]; intros a bs H; simpl in H.
  - injection H as <-. reflexivity.
  - destruct (m !! a); [|discriminate].
    destruct (read_bytes m (a + 1) n) eqn:E; [|discriminate].
    injection H as <-. simpl. f_equal. eapply IH, E.
Qed.

Lemma read_bytes_app m a (l1 l2 : list byte) :
  read_bytes m a (length l1 + length l2) = Some (l1 ++ l2) <->
  read_bytes m a (length l1) = Some l1
  /\ read_bytes m (a + Z.of_nat (length l1)) (length l2) = Some l2.
Proof.
  revert a. induction l1 as [|b l1 IH]; intros a.
  - cbn [length app Nat.add read_bytes]. rewrite Z.add_0_r. tauto.
  - cbn [length app Nat.add read_bytes].
    replace (a + Z.of_nat (S (length l1))) with (a + 1 + Z.of_nat (length l1)) by lia.
    specialize (IH (a + 1)).
    destruct (m !! a) as [b'|]; [|split; [discriminate|intros [? _]; discriminate]].
    destruct (read_bytes m (a + 1) (length l1 + length l2)) as [r|];
      destruct (read_bytes m (a + 1) (length l1)) as [r1|]; split.
    all: try discriminate.
    all: try (intros [H _]; discriminate H).
    + intros H. injection H as -> ->.
      destruct (proj1 IH eq_refl) as [E E2].
      injection E as ->. split; [reflexivity|exact E2].
    + intros [H H2]. injection H as -> ->.
      pose proof (proj2 IH (conj eq_refl H2)) as E.
      injection E as ->. reflexivity.
    + intros H. injection H as -> ->.
      destruct (proj1 IH eq_refl) as [E _]. discriminate E.
    + intros [H H2]. injection H as -> ->.
      pose proof (proj2 IH (conj eq_refl H2)) as E. discriminate E.
Qed.

Lemma read_bytes_take m a n (l : list byte) j :
  read_bytes m a n = Some l -> (j <= n)%nat ->
  read_bytes m a j = Some (take j l).
Proof.
  intros H Hj. pose proof (read_bytes_length _ _ _ _ H) as Hl.
  rewrite <- (take_drop j l) in H.
  replace n with (length (take j l) + length (drop j l))%nat in H
    by (rewrite <- length_app, take_drop; exact Hl).
  apply read_bytes_app in H as [H _].
  rewrite length_take in H. replace (j `min` length l)%nat with j in H by lia.
  exact H.
Qed.

(** Writing succeeds exactly on mapped addresses. *)
Lemma write_bytes_mapped m a bs :
  (forall i, (i < length bs)%nat -> is_Some (m !! (a + Z.of_nat i))) ->
  exists m', write_bytes m a bs = Some m'.
Proof.
  revert m a. induction bs as [|b bs IH]; intros m a H; simpl.
  - eauto.
  - destruct (H 0%nat) as [b0 Hb0]; [simpl; lia|].
    rewrite Z.add_0_r in Hb0. rewrite Hb0. apply IH.
    intros i Hi. specialize (H (S i)). 
    replace (a + 1 + Z.of_nat i) with (a + Z.of_nat (S i)) by lia.
    destruct (decide (a = a + Z.of_nat (S i))) as [Heq|Hne]; [lia|].
    rewrite lookup_insert_ne by exact Hne. apply H. simpl. lia.
Qed.

Lemma write_bytes_frame m a bs m' x :
  write_bytes m a bs = Some m' ->
  x < a \/ a + Z.of_nat (length bs) <= x ->
  m' !! x = m !! x.
Proof.
  revert m a. induction bs as [|b bs IH]; intros m a H Hx; simpl in H.
  - injection H as <-. reflexivity.
  - destruct (m !! a) eqn:E; [|discriminate].
    rewrite (IH _ _ H) by (simpl in Hx; lia).
    apply lookup_insert_ne. simpl in Hx. lia.
Qed.

(** What was written is what is read back. *)
Lemma read_write_bytes m a bs m' :
  write_bytes m a bs = Some m' ->
  read_bytes m' a (length bs) = Some bs.
Proof.
  revert m a. induction bs as [|b bs IH]; intros m a H; simpl in *.
  - reflexivity.
  - destruct (m !! a) eqn:E; [|discriminate].
    rewrite (write_bytes_frame _ _ _ _ a H) by lia.
    rewrite lookup_insert_eq, (IH _ _ H). reflexivity.
Qed.

(** ** String extraction *)

Lemma mem_read_Some ql a n bs :
  read_bytes (mem ql) a n = Some bs -> mem_read a n ql = (ql, Ok bs).
Proof. unfold mem_read. intros ->. reflexivity. Qed.

(** The scan over a memory that holds chunks of the terminator's length,
    none of them the terminator, and then the terminator. *)
Lemma read_string_loop_chunks ql (term : list byte) (chunks : list (list byte)) :
  Forall (fun ch => length ch = length term /\ ch <> term) chunks ->
  forall fuel a acc,
    read_bytes (mem ql) a (length (concat chunks) + length term)
      = Some (concat chunks ++ term) ->
    (length chunks < fuel)%nat ->
    read_string_loop fuel a term (length term) acc
      (take (length term) (concat chunks ++ term)) ql
    = (ql, Ok (acc ++ concat chunks)).
Proof.
  induction 1 as [|ch chunks [Hlen Hne] _ IH]; intros fuel a acc Hmem Hfuel.
  - destruct fuel as [|fuel]; [lia|]. simpl.
    rewrite firstn_all. rewrite decide_True by reflexivity.
    rewrite app_nil_r. reflexivity.
  - destruct fuel as [|fuel]; [simpl in Hfuel; lia|].
    cbn [concat] in *. rewrite <- app_assoc in *.
    rewrite <- Hlen at 2. rewrite take_app_length.
    cbn [read_string_loop]. rewrite decide_False by exact Hne.
    rewrite length_app, <- Nat.add_assoc in Hmem.
    rewrite <- length_app in Hmem.
    apply read_bytes_app in Hmem as [_ Hmem]. rewrite Hlen in Hmem.
    rewrite length_app in Hmem.
    erewrite bind_Ok.
    2:{ apply mem_read_Some. eapply read_bytes_take; [exact Hmem|lia]. }
    rewrite IH; [|exact Hmem|simpl in Hfuel; lia].
    rewrite <- app_assoc. reflexivity.
Qed.

Lemma read_string_chunks ql (term : list byte) (chunks : list (list byte)) fuel a :
  Forall (fun ch => length ch = length term /\ ch <> term) chunks ->
  read_bytes (mem ql) a (length (concat chunks) + length term)
    = Some (concat chunks ++ term) ->
  (length chunks < fuel)%nat ->
  read_string fuel a term ql = (ql, Ok (decode_ignore (concat chunks))).
Proof.
  intros Hch Hmem Hfuel. unfold read_string.
  erewrite bind_Ok.
  2:{ apply mem_read_Some. eapply read_bytes_take; [exact Hmem|lia]. }
  erewrite bind_Ok.
  2:{ apply read_string_loop_chunks; eassumption. }
  reflexivity.
Qed.

(** A byte string whose length is a multiple of [n] is a sequence of chunks
    of length [n]. *)
Lemma chunks_of (n k : nat) (b : list byte) :
  length b = (k * n)%nat ->
  exists chunks, b = concat chunks
    /\ Forall (fun ch => length ch = n) chunks /\ length chunks = k.
Proof.
  revert b. induction k as [|k IH]; intros b Hb.
  - destruct b; [|discriminate]. exists []. auto.
  - destruct (IH (drop n b)) as (chunks & Hc & Hall & Hk).
    { rewrite length_drop. lia. }
    exists (take n b :: chunks). split; [|split].
    + simpl. rewrite <- Hc, take_drop. reflexivity.
    + constructor; [|exact Hall]. rewrite length_take. simpl in Hb. lia.
    + simpl. congruence.
Qed.

Lemma chunk_infix (chunks : list (list byte)) (ch : list byte) :
  ch ∈ chunks -> exists p q, concat chunks = p ++ ch ++ q.
Proof.
  intros Hin. apply list_elem_of_split in Hin as (l1 & l2 & ->).
  exists (concat l1), (concat l2). rewrite concat_app. reflexivity.
Qed.

Lemma contains_infix (p sub q : pystr) : contains (p ++ sub ++ q) sub = true.
Proof.
  induction p as [|x p IH].
  - cbn [app]. destruct (sub ++ q) eqn:E.
    + apply app_eq_nil in E as [-> _]. reflexivity.
    + cbn [contains]. rewrite <- E, startswith_app. reflexivity.
  - cbn [app contains]. rewrite IH. apply orb_true_r.
Qed.

Lemma occurs_in_contains (sub b : list byte) :
  occurs_in sub b ->
  contains (map byte_to_Z b) (map byte_to_Z sub) = true.
Proof.
  intros (p & q & ->). rewrite !map_app. apply contains_infix.
Qed.

(** C3, as amended: for every byte sequence [b] that does not contain the
    terminator and whose length is a multiple of the terminator's length, if
    memory at [a] holds [b] followed by the terminator, then [read_string],
    given fuel for one test per chunk and one more, leaves [ql] as it is and
    returns [b] decoded leniently; the decoder is a total function. *)
Theorem read_string_returns_text ql (term b : list byte) (a : Z) (fuel : nat) :
  (exists k, length b = (k * length term)%nat) ->
  ~ occurs_in term b ->
  read_bytes (mem ql) a (length b + length term) = Some (b ++ term) ->
  (length b / length term < fuel)%nat ->
  read_string fuel a term ql = (ql, Ok (decode_ignore b)).
Proof.
  intros [k Hk] Hno Hmem Hfuel.
  assert (length term <> 0%nat) as Hn.
  { intros H0. apply Hno. exists [], b.
    destruct term; [reflexivity|discriminate]. }
  destruct (chunks_of _ _ _ Hk) as (chunks & -> & Hall & Hlen).
  rewrite Hk, Nat.div_mul in Hfuel by exact Hn.
  apply read_string_chunks; [|exact Hmem|lia].
  apply Forall_forall. intros ch Hin. split.
  - eapply (proj1 (Forall_forall _ _) Hall), Hin.
  - intros ->. apply Hno. apply chunk_infix, Hin.
Qed.

Lemma read_string_returns_text_witness :
  read_string 3 100 [x00] (machine 100 ["h"; "i"; x00]%byte)
  = (machine 100 ["h"; "i"; x00]%byte, Ok (decode_ignore ["h"; "i"]%byte)).
Proof.
  apply (read_string_returns_text (machine 100 ["h"; "i"; x00]%byte)
           [x00] ["h"; "i"]%byte 100 3).
  - exists 2%nat. reflexivity.
  - intros H. apply occurs_in_contains in H. vm_compute in H. discriminate.
  - vm_compute. reflexivity.
  - vm_compute. lia.
Defined.

(** C3 as stated fails for a terminator of two bytes and a [b] of odd
    length: memory holds ["A"] and the terminator, and what follows them in
    memory is read as part of the string. *)
Lemma read_string_unaligned_counterexample :
  ~ occurs_in [x00; x00] ["A"%byte]
  /\ read_bytes (mem (machine 100 ["A"; x00; x00; "B"; x00; x00]%byte)) 100 3
     = Some (["A"%byte] ++ [x00; x00])
  /\ (forall fuel, (2 < fuel)%nat ->
        read_string fuel 100 [x00; x00]
          (machine 100 ["A"; x00; x00; "B"; x00; x00]%byte)
        = (machine 100 ["A"; x00; x00; "B"; x00; x00]%byte,
           Ok [65; 0; 0; 66]))
  /\ decode_ignore ["A"%byte] = [65].
Proof.
  split; [|split; [|split]].
  - intros H. apply occurs_in_contains in H. vm_compute in H. discriminate.
  - vm_compute. reflexivity.
  - intros fuel Hfuel.
    destruct fuel as [|[|[|fuel]]]; try lia. vm_compute. reflexivity.
  - reflexivity.
Qed.

(** Reading leaves [ql] as it is. *)
Lemma read_string_loop_state fuel a term n acc c ql :
  fst (read_string_loop fuel a term n acc c ql) = ql.
Proof.
  revert a acc c. induction fuel as [|fuel IH]; intros a acc c.
  - reflexivity.
  - cbn [read_string_loop]. destruct (decide _); [reflexivity|].
    unfold bind, mem_read. destruct (read_bytes _ _ _); [apply IH|reflexivity].
Qed.

Lemma read_string_state fuel a term ql :
  fst (read_string fuel a term ql) = ql.
Proof.
  unfold read_string, bind, mem_read.
  destruct (read_bytes _ _ _); [|reflexivity].
  pose proof (read_string_loop_state fuel a term (length term) [] l ql) as H.
  destruct (read_string_loop _ _ _ _ _ _ _) as [q [r| |]]; exact H.
Qed.

Lemma read_wstring_Ok_inv fuel a ql ql' s :
  read_wstring fuel a ql = (ql', Ok s) ->
  exists s0, read_string fuel a [x00; x00] ql = (ql, Ok s0)
    /\ s = replace s0 [0] [] /\ ql' = stats_log_string s ql.
Proof.
  unfold read_wstring. intros H.
  apply bind_Ok_inv in H as (s0 & ql1 & H0 & H).
  pose proof (read_string_state fuel a [x00; x00] ql) as Hst.
  rewrite H0 in Hst. simpl in Hst. subst ql1.
  exists s0. split; [exact H0|].
  unfold bind, modify, ret in H. injection H as <- <-. auto.
Qed.

(** C8: the text [read_wstring] returns holds no null character, whatever
    the memory between the address and the terminator holds. *)
Theorem read_wstring_no_null fuel (a : Z) ql ql' (s : pystr) :
  read_wstring fuel a ql = (ql', Ok s) -> 0 ∉ s.
Proof.
  intros H. apply read_wstring_Ok_inv in H as (s0 & _ & -> & _).
  rewrite replace_single_empty. intros Hin.
  apply list_elem_of_filter in Hin as [Hne _]. apply Hne. reflexivity.
Qed.

Lemma read_wstring_no_null_witness : 0 ∉ py "hi".
Proof.
  apply (read_wstring_no_null 4 100
           (machine 100 ["h"; x00; "i"; x00; x00; x00]%byte)
           (stats_log_string (py "hi")
              (machine 100 ["h"; x00; "i"; x00; x00; x00]%byte))).
  vm_compute. reflexivity.
Defined.

(** ** The marshaller *)

Lemma list_comprehension_reads (read_ptr : Qiling -> Z -> PyResult Z)
    (addr : nat -> Z) ql (range : list nat) :
  fst (list_comprehension
         (fun i => v <- mem_read_ptr read_ptr (addr i) ;; ret (PInt v))
         range ql) = ql
  /\ forall vs,
       snd (list_comprehension
              (fun i => v <- mem_read_ptr read_ptr (addr i) ;; ret (PInt v))
              range ql) = Ok vs
       <-> Forall2 (fun i x => exists v, read_ptr ql (addr i) = Val v /\ x = PInt v)
             range vs.
Proof.
  set (f := fun i => v <- mem_read_ptr read_ptr (addr i) ;; ret (PInt v)).
  assert (forall i, f i ql
            = (ql, match read_ptr ql (addr i) with
                   | Val v => Ok (PInt v)
                   | Exn e => Raise e
                   end)) as Hf.
  { intros i. unfold f, bind, mem_read_ptr, lift, ret.
    destruct (read_ptr ql (addr i)); reflexivity. }
  induction range as [|i range [IHst IH]].
  - split; [reflexivity|]. intros vs. simpl. split.
    + intros H. injection H as <-. constructor.
    + intros H. inversion H. reflexivity.
  - cbn [list_comprehension]. unfold bind at 1 3. rewrite Hf.
    destruct (read_ptr ql (addr i)) as [v|e] eqn:E.
    + unfold bind.
      destruct (list_comprehension f range ql) as [q [xs|e|]] eqn:L;
        simpl in IHst; subst q; (split; [reflexivity|]); intros vs; simpl.
      * split.
        -- intros H. injection H as <-. constructor; [eauto|].
           apply IH. reflexivity.
        -- intros H. inversion H as [|? ? ? ? (v' & Hv & ->) Hrest]; subst.
           rewrite E in Hv. injection Hv as <-.
           apply IH in Hrest. simpl in Hrest. injection Hrest as <-. reflexivity.
      * split; [discriminate|].
        intros H. inversion H as [|? ? ? ? _ Hrest]; subst.
        apply IH in Hrest. discriminate.
      * split; [discriminate|].
        intros H. inversion H as [|? ? ? ? _ Hrest]; subst.
        apply IH in Hrest. discriminate.
    + split; [reflexivity|]. intros vs. simpl. split; [discriminate|].
      intros H. inversion H as [|? ? ? ? (v' & Hv & _) _]; subst.
      rewrite E in Hv. discriminate.
Qed.

(** C2: [va_list] counts the [%] characters of the format, every one of
    them, and returns exactly that many values, the [i]-th being what
    [read_ptr] gives at [ptr + i * pointersize]; it returns them exactly when
    all these reads succeed, and leaves [ql] as it is. *)
Theorem va_list_reads_count_slots (read_ptr : Qiling -> Z -> PyResult Z)
    (format : pystr) (ptr : Z) ql :
  count format (py "%") = length (filter (fun c => c = chr "%") format)
  /\ fst (va_list read_ptr format ptr ql) = ql
  /\ forall vs : list pyval,
       snd (va_list read_ptr format ptr ql) = Ok vs
       <-> length vs = count format (py "%")
           /\ forall i, (i < count format (py "%"))%nat ->
                exists v,
                  read_ptr ql (ptr + Z.of_nat i * arch_pointersize ql) = Val v
                  /\ vs !! i = Some (PInt v).
Proof.
  split; [apply count_from_single|].
  unfold va_list.
  destruct (list_comprehension_reads read_ptr
              (fun i => ptr + Z.of_nat i * arch_pointersize ql) ql
              (seq 0 (count format (py "%")))) as [Hst H].
  split; [exact Hst|]. intros vs. rewrite H.
  rewrite Forall2_same_length_lookup, length_seq. split.
  - intros [Hlen Hall]. split; [congruence|]. intros i Hi.
    destruct (lookup_lt_is_Some_2 vs i) as [x Hx]; [lia|].
    destruct (Hall i i x) as (v & Hv & ->); [apply lookup_seq; lia|exact Hx|].
    eauto.
  - intros [Hlen Hall]. split; [congruence|]. intros i j x Hj Hx.
    apply lookup_seq in Hj as [-> Hi]. destruct (Hall i Hi) as (v & Hv & Hx').
    exists v. split; [exact Hv|congruence].
Qed.

(** The literal [%%] counts twice: four slots are read for two conversions. *)
Example va_list_example :
  va_list read_ptr_le (py "%d %s 100%%") 100
    (machine 100 ["001"; x00; x00; x00; "002"; x00; x00; x00;
                  "003"; "004"; x00; x00; "005"; x00; x00; x00]%byte)
  = (machine 100 ["001"; x00; x00; x00; "002"; x00; x00; x00;
                  "003"; "004"; x00; x00; "005"; x00; x00; x00]%byte,
     Ok [PInt 1; PInt 2; PInt 1027; PInt 5]).
Proof. vm_compute. reflexivity. Qed.

(** ** The readers depend on memory only *)

Lemma read_string_loop_mem fuel a term n acc c ql1 ql2 :
  mem ql1 = mem ql2 ->
  snd (read_string_loop fuel a term n acc c ql1)
  = snd (read_string_loop fuel a term n acc c ql2).
Proof.
  intros Hm. revert a acc c. induction fuel as [|fuel IH]; intros a acc c.
  - reflexivity.
  - cbn [read_string_loop]. destruct (decide _); [reflexivity|].
    unfold bind, mem_read. rewrite Hm.
    destruct (read_bytes _ _ _); [apply IH|reflexivity].
Qed.

Lemma read_string_mem fuel a term ql1 ql2 :
  mem ql1 = mem ql2 ->
  snd (read_string fuel a term ql1) = snd (read_string fuel a term ql2).
Proof.
  intros Hm. unfold read_string, bind, mem_read. rewrite Hm.
  destruct (read_bytes _ _ _) as [c|]; [|reflexivity].
  pose proof (read_string_loop_mem fuel a term (length term) [] c _ _ Hm) as H.
  destruct (read_string_loop _ _ _ _ _ _ ql1) as [q1 [r1| |]];
    destruct (read_string_loop _ _ _ _ _ _ ql2) as [q2 [r2| |]];
    simpl in H; try discriminate; try reflexivity.
  - injection H as ->. reflexivity.
  - injection H as ->. reflexivity.
Qed.

Lemma read_string_loop_raises fuel a term n acc c ql e :
  snd (read_string_loop fuel a term n acc c ql) = Raise e ->
  e = MemoryAccessError.
Proof.
  revert a acc c. induction fuel as [|fuel IH]; intros a acc c.
  - discriminate.
  - cbn [read_string_loop]. destruct (decide _); [discriminate|].
    unfold bind, mem_read.
    destruct (read_bytes _ _ _); [apply IH|simpl; congruence].
Qed.

Lemma read_string_raises fuel a term ql e :
  snd (read_string fuel a term ql) = Raise e -> e = MemoryAccessError.
Proof.
  unfold read_string, bind, mem_read.
  destruct (read_bytes _ _ _) as [c|]; [|simpl; congruence].
  pose proof (read_string_loop_raises fuel a term (length term) [] c ql) as H.
  destruct (read_string_loop _ _ _ _ _ _ ql) as [q1 [r1|e1|]]; simpl in *;
    try discriminate.
  intros [= <-]. apply H. reflexivity.
Qed.

Lemma read_wstring_eq fuel a ql :
  read_wstring fuel a ql
  = match snd (read_string fuel a [x00; x00] ql) with
    | Ok s0 => (stats_log_string (replace s0 [0] []) ql, Ok (replace s0 [0] []))
    | Raise e => (ql, Raise e)
    | OutOfFuel => (ql, OutOfFuel)
    end.
Proof.
  unfold read_wstring, bind.
  pose proof (read_string_state fuel a [x00; x00] ql) as H.
  destruct (read_string _ _ _ _) as [q [s0|e|]]; simpl in *; subst q;
    reflexivity.
Qed.

Lemma read_cstring_eq fuel a ql :
  read_cstring fuel a ql
  = match snd (read_string fuel a [x00] ql) with
    | Ok s => (stats_log_string s ql, Ok s)
    | Raise e => (ql, Raise e)
    | OutOfFuel => (ql, OutOfFuel)
    end.
Proof.
  unfold read_cstring, bind.
  pose proof (read_string_state fuel a [x00] ql) as H.
  destruct (read_string _ _ _ _) as [q [s0|e|]]; simpl in *; subst q;
    reflexivity.
Qed.

Lemma decoded_at_mem fuel wstring ql1 ql2 a :
  mem ql1 = mem ql2 ->
  decoded_at fuel wstring ql1 a = decoded_at fuel wstring ql2 a.
Proof.
  intros Hm. unfold decoded_at. destruct wstring.
  - rewrite !read_wstring_eq, (read_string_mem _ _ _ _ _ Hm).
    destruct (snd (read_string _ _ _ ql2)); reflexivity.
  - rewrite !read_cstring_eq, (read_string_mem _ _ _ _ _ Hm).
    destruct (snd (read_string _ _ _ ql2)); reflexivity.
Qed.

Lemma decoded_at_raises fuel wstring ql a e :
  decoded_at fuel wstring ql a = Raise e -> e = MemoryAccessError.
Proof.
  unfold decoded_at. destruct wstring.
  - rewrite read_wstring_eq.
    destruct (snd (read_string _ _ _ _)) eqn:E; simpl; try discriminate.
    intros [= <-]. eapply read_string_raises, E.
  - rewrite read_cstring_eq.
    destruct (snd (read_string _ _ _ _)) eqn:E; simpl; try discriminate.
    intros [= <-]. eapply read_string_raises, E.
Qed.

Lemma read_string_at_eq fuel wstring a ql (args : list pyval) :
  read_string_at fuel wstring (PInt a) (ql, args)
  = match decoded_at fuel wstring ql a with
    | Ok s => ((stats_log_string s ql, args), Ok s)
    | Raise e => ((ql, args), Raise e)
    | OutOfFuel => ((ql, args), OutOfFuel)
    end.
Proof.
  unfold read_string_at, on_ql, decoded_at. destruct wstring.
  - rewrite read_wstring_eq.
    destruct (snd (read_string _ _ _ _)); reflexivity.
  - rewrite read_cstring_eq.
    destruct (snd (read_string _ _ _ _)); reflexivity.
Qed.

(** ** The resolution pass *)

Section Resolve.

Variables (fuel : nat) (wstring : bool).

Local Abbreviation resolve_body :=
  (fun (i : nat) (f : pystr) =>
     if startswith f (py "s") then
       a <- args_getitem i ;;
       s <- read_string_at fuel wstring a ;;
       args_setitem i (PStr s)
     else ret tt).

Lemma resolve_body_eq (i : nat) (f : pystr) ql (args : list pyval) :
  resolve_body i f (ql, args)
  = if startswith f (py "s") then
      match args !! i with
      | None => ((ql, args), Raise IndexError)
      | Some (PStr _) => ((ql, args), Raise TypeError)
      | Some (PInt a) =>
          match decoded_at fuel wstring ql a with
          | Ok s => ((stats_log_string s ql, <[i := PStr s]> args), Ok tt)
          | Raise e => ((ql, args), Raise e)
          | OutOfFuel => ((ql, args), OutOfFuel)
          end
      end
    else ((ql, args), Ok tt).
Proof.
  cbv beta. destruct (startswith f (py "s")); [|reflexivity].
  unfold bind at 1. unfold args_getitem.
  destruct (args !! i) as [[a|s]|] eqn:E; [|reflexivity|reflexivity].
  unfold bind. rewrite read_string_at_eq.
  destruct (decoded_at fuel wstring ql a); [|reflexivity|reflexivity].
  unfold args_setitem.
  apply lookup_lt_Some in E. apply Nat.ltb_lt in E. rewrite E. reflexivity.
Qed.

Lemma for_enumerate_cons {St} (i : nat) (f : pystr) (rest : list pystr)
    (body : nat -> pystr -> StateM St unit) (st : St) :
  for_enumerate i (f :: rest) body st
  = match body i f st with
    | (st', Ok _) => for_enumerate (S i) rest body st'
    | (st', Raise e) => (st', Raise e)
    | (st', OutOfFuel) => (st', OutOfFuel)
    end.
Proof. reflexivity. Qed.

(** With a slot for every segment the pass never indexes past the list. *)
Lemma resolve_loop_in_bounds (segs : list pystr) (i : nat) ql (args : list pyval) :
  (i + length segs <= length args)%nat ->
  snd (for_enumerate i segs resolve_body (ql, args)) <> Raise IndexError.
Proof.
  revert i ql args. induction segs as [|f segs IH]; intros i ql args Hlen.
  - discriminate.
  - rewrite for_enumerate_cons, resolve_body_eq. cbn [length] in Hlen.
    destruct (startswith f (py "s")); [|apply IH; lia].
    destruct (lookup_lt_is_Some_2 args i) as [v ->]; [lia|].
    destruct v as [a|s]; [|discriminate].
    destruct (decoded_at fuel wstring ql a) as [s|e|] eqn:E.
    + apply IH. rewrite length_insert. lia.
    + apply decoded_at_raises in E. subst e. discriminate.
    + discriminate.
Qed.

(** The pass over slots that all hold readable addresses. *)
Lemma resolve_loop_spec (segs : list pystr) (i : nat) ql (args : list pyval) :
  (forall j f, segs !! j = Some f -> startswith f (py "s") = true ->
     exists a s, args !! (i + j)%nat = Some (PInt a)
                 /\ decoded_at fuel wstring ql a = Ok s) ->
  exists ql' args',
    for_enumerate i segs resolve_body (ql, args) = ((ql', args'), Ok tt)
    /\ mem ql' = mem ql
    /\ length args' = length args
    /\ (forall n, (n < i)%nat -> args' !! n = args !! n)
    /\ forall j,
         match segs !! j with
         | Some f =>
             if startswith f (py "s") then
               exists a s, args !! (i + j)%nat = Some (PInt a)
                           /\ decoded_at fuel wstring ql a = Ok s
                           /\ args' !! (i + j)%nat = Some (PStr s)
             else args' !! (i + j)%nat = args !! (i + j)%nat
         | None => args' !! (i + j)%nat = args !! (i + j)%nat
         end.
Proof.
  revert i ql args. induction segs as [|f segs IH]; intros i ql args H.
  - exists ql, args. repeat split; auto.
  - rewrite for_enumerate_cons, resolve_body_eq.
    destruct (startswith f (py "s")) eqn:Ef.
    + destruct (H 0%nat f eq_refl Ef) as (a & s & Ha & Hs).
      rewrite Nat.add_0_r in Ha. rewrite Ha, Hs.
      destruct (IH (S i) (stats_log_string s ql) (<[i := PStr s]> args))
        as (ql' & args' & Hrun & Hmem & Hlen & Hlow & Hspec).
      { intros j g Hg Hgs. destruct (H (S j) g Hg Hgs) as (a' & s' & Ha' & Hs').
        exists a', s'. split.
        - rewrite list_lookup_insert_ne by lia.
          rewrite <- Ha'. f_equal. lia.
        - rewrite <- Hs'. apply decoded_at_mem. reflexivity. }
      exists ql', args'. rewrite Hrun. split; [reflexivity|].
      split; [rewrite Hmem; reflexivity|].
      split; [rewrite Hlen; apply length_insert|].
      split.
      { intros n Hn. rewrite Hlow by lia. apply list_lookup_insert_ne. lia. }
      intros [|j].
      * cbn [lookup list_lookup]. rewrite Ef, Nat.add_0_r.
        exists a, s. split; [exact Ha|]. split; [exact Hs|].
        rewrite Hlow by lia. apply list_lookup_insert_eq.
        eapply lookup_lt_Some, Ha.
      * specialize (Hspec j). cbn [lookup list_lookup].
        replace (i + S j)%nat with (S i + j)%nat by lia.
        change (list_lookup j segs) with (segs !! j).
        destruct (segs !! j) as [g|].
        -- destruct (startswith g (py "s")).
           ++ destruct Hspec as (a' & s' & Ha' & Hs' & Hr).
              exists a', s'. split; [|split; [|exact Hr]].
              ** rewrite list_lookup_insert_ne in Ha' by lia. exact Ha'.
              ** rewrite <- Hs'. apply decoded_at_mem. reflexivity.
           ++ rewrite Hspec. apply list_lookup_insert_ne. lia.
        -- rewrite Hspec. apply list_lookup_insert_ne. lia.
    + destruct (IH (S i) ql args) as (ql' & args' & Hrun & Hmem & Hlen & Hlow & Hspec).
      { intros j g Hg Hgs. destruct (H (S j) g Hg Hgs) as (a' & s' & Ha' & Hs').
        exists a', s'. split; [|exact Hs'].
        rewrite <- Ha'. f_equal. lia. }
      exists ql', args'. rewrite Hrun. repeat split; try assumption.
      { intros n Hn. apply Hlow. lia. }
      intros [|j].
      * cbn [lookup list_lookup]. rewrite Ef, Nat.add_0_r. apply Hlow. lia.
      * specialize (Hspec j). cbn [lookup list_lookup].
        replace (i + S j)%nat with (S i + j)%nat by lia.
        exact Hspec.
Qed.

End Resolve.

(** ** The interpreter *)

Lemma segments_length (format : pystr) :
  length (segments format) = count format (py "%").
Proof.
  unfold segments, count. change (py "%") with [37].
  rewrite length_drop, split_from_length. lia.
Qed.

(** [__common_printf] is the resolution pass followed by the substitution
    into the normalized format; an exception of the pass ends the call. *)
Lemma common_printf_eq host fuel (format : pystr) wstring
    (st : Qiling * list pyval) :
  __common_printf host fuel format wstring st
  = match resolve_strings fuel wstring (segments format) st with
    | ((ql', args'), Ok _) =>
        ((ql', args'), of_py (py_mod host (normalized format) args'))
    | (st', Raise e) => (st', Raise e)
    | (st', OutOfFuel) => (st', OutOfFuel)
    end.
Proof.
  unfold __common_printf, segments, normalized, split.
  change (py "%") with [37]. unfold bind at 1. unfold lift at 1.
  cbn [of_py]. unfold bind at 1.
  destruct (resolve_strings _ _ _ st) as [[ql' args'] [u|e|]]; reflexivity.
Qed.

(** C10: when the argument list has as many elements as the format has [%]
    characters, every index the resolution pass enumerates is an index of
    the list, and the pass does not end in [IndexError]. *)
Theorem resolve_indices_within_args fuel wstring (format : pystr) ql
    (args : list pyval) :
  length args = count format (py "%") ->
  (forall i f, segments format !! i = Some f -> is_Some (args !! i))
  /\ snd (resolve_strings fuel wstring (segments format) (ql, args))
     <> Raise IndexError.
Proof.
  intros Hlen. split.
  - intros i f Hf. apply lookup_lt_is_Some_2.
    apply lookup_lt_Some in Hf. rewrite segments_length in Hf. lia.
  - apply resolve_loop_in_bounds. rewrite segments_length. lia.
Qed.

Lemma resolve_indices_within_args_witness :
  (forall i f, segments (py "%d%s") !! i = Some f ->
     is_Some ([PInt 1; PInt 100] !! i))
  /\ snd (resolve_strings 3 false (segments (py "%d%s"))
            (machine 100 ["h"; "i"; x00]%byte, [PInt 1; PInt 100]))
     <> Raise IndexError.
Proof.
  apply (resolve_indices_within_args 3 false (py "%d%s")
           (machine 100 ["h"; "i"; x00]%byte) [PInt 1; PInt 100]).
  reflexivity.
Defined.

(** Cutting at [%] gives back the pieces a format was made of. *)
Lemma split_from_marked (segs : list pystr) :
  Forall (fun seg => 37 ∉ seg) segs ->
  forall head, 37 ∉ head ->
    split_from [37] 0 (marked_format head segs) = head :: segs.
Proof.
  unfold marked_format.
  induction 1 as [|seg segs Hseg _ IH]; intros head Hhead.
  - cbn [flat_map]. rewrite app_nil_r.
    induction head as [|c head IHh]; [reflexivity|].
    apply not_elem_of_cons in Hhead as [Hc Hhead].
    cbn [split_from startswith]. rewrite (IHh Hhead).
    destruct (Z.eqb_spec 37 c); [congruence|reflexivity].
  - induction head as [|c head IHh].
    + cbn [flat_map app split_from startswith length Nat.sub].
      rewrite Z.eqb_refl, startswith_nil. cbn [andb].
      rewrite (IH seg Hseg). reflexivity.
    + apply not_elem_of_cons in Hhead as [Hc Hhead].
      change ((c :: head) ++ ?r) with (c :: (head ++ r)).
      cbn [split_from startswith]. rewrite (IHh Hhead).
      destruct (Z.eqb_spec 37 c); [congruence|reflexivity].
Qed.

Lemma segments_marked (head : pystr) (segs : list pystr) :
  37 ∉ head ->
  Forall (fun seg => 37 ∉ seg) segs ->
  segments (marked_format head segs) = segs.
Proof.
  intros Hhead Hsegs. unfold segments. change (py "%") with [37].
  rewrite (split_from_marked segs Hsegs head Hhead). reflexivity.
Qed.

(** Every format is made of a text without [%] and of segments without
    [%], each behind a [%]. *)
Lemma format_marked (format : pystr) :
  exists head segs,
    format = marked_format head segs
    /\ (37 ∉ head) /\ Forall (fun seg => 37 ∉ seg) segs.
Proof.
  induction format as [|c format (head & segs & -> & Hhead & Hsegs)].
  - exists [], []. split; [reflexivity|]. split; [|constructor].
    apply not_elem_of_nil.
  - destruct (decide (c = 37)) as [->|Hc].
    + exists [], (head :: segs). split; [reflexivity|].
      split; [apply not_elem_of_nil|]. apply Forall_cons_2; assumption.
    + exists (c :: head), segs. split; [reflexivity|].
      split; [|exact Hsegs]. apply not_elem_of_cons. split; [congruence|].
      exact Hhead.
Qed.

(** C1: a format is a text followed by segments, each behind a [%], and
    for every such format and every argument list: when every slot whose
    segment begins with [s] holds an address the chosen reader decodes a
    string from, [__common_printf] replaces exactly these slots of the
    argument list, in place, by the decoded strings (the wide reader when
    [wstring] is set, the narrow one otherwise), leaves the other slots and
    the memory as they are, and substitutes the resulting list into the
    normalized format. So [%d:%s] of 7 and the address of [hi] leaves the
    list as 7 and [hi] and gives [7:hi], and the wide [%s=%x] of the address
    of a wide [hi] and 255 leaves [hi] and 255 and gives [hi=ff]. *)
Theorem common_printf_resolves_strings host fuel :
  (forall (head : pystr) (segs : list pystr) wstring ql (args : list pyval),
      37 ∉ head ->
      Forall (fun seg => 37 ∉ seg) segs ->
      (forall i seg, segs !! i = Some seg ->
         startswith seg (py "s") = true ->
         exists a s, args !! i = Some (PInt a)
                     /\ decoded_at fuel wstring ql a = Ok s) ->
      exists ql' args',
        __common_printf host fuel (marked_format head segs) wstring (ql, args)
        = ((ql', args'),
           of_py (py_mod host (normalized (marked_format head segs)) args'))
        /\ mem ql' = mem ql
        /\ length args' = length args
        /\ forall i,
             match segs !! i with
             | Some seg =>
                 if startswith seg (py "s") then
                   exists a s, args !! i = Some (PInt a)
                               /\ decoded_at fuel wstring ql a = Ok s
                               /\ args' !! i = Some (PStr s)
                 else args' !! i = args !! i
             | None => args' !! i = args !! i
             end)
  /\ (forall format : pystr,
        exists head segs,
          format = marked_format head segs
          /\ (37 ∉ head) /\ Forall (fun seg => 37 ∉ seg) segs)
  /\ __common_printf host 3 (py "%d:%s") false
       (machine 100 ["h"; "i"; x00]%byte, [PInt 7; PInt 100])
     = ((stats_log_string (py "hi") (machine 100 ["h"; "i"; x00]%byte),
         [PInt 7; PStr (py "hi")]),
        Ok (py "7:hi"))
  /\ __common_printf host 3 (py "%s=%x") true
       (machine 100 ["h"; x00; "i"; x00; x00; x00]%byte, [PInt 100; PInt 255])
     = ((stats_log_string (py "hi")
           (machine 100 ["h"; x00; "i"; x00; x00; x00]%byte),
         [PStr (py "hi"); PInt 255]),
        Ok (py "hi=ff")).
Proof.
  split; [|split; [exact format_marked|split; vm_compute; reflexivity]].
  intros head segs wstring ql args Hhead Hsegs H.
  destruct (resolve_loop_spec fuel wstring segs 0 ql args H)
    as (ql' & args' & Hrun & Hmem & Hlen & _ & Hspec).
  exists ql', args'. rewrite common_printf_eq. unfold resolve_strings.
  rewrite (segments_marked head segs Hhead Hsegs), Hrun.
  repeat split; assumption.
Qed.

Lemma common_printf_resolves_strings_witness :
  exists ql' args',
    __common_printf host_plain 3 (py "%d:%s") false
      (machine 100 ["h"; "i"; x00]%byte, [PInt 7; PInt 100])
    = ((ql', args'), Ok (py "7:hi"))
    /\ mem ql' = mem (machine 100 ["h"; "i"; x00]%byte)
    /\ args' = [PInt 7; PStr (py "hi")].
Proof.
  destruct (proj1 (common_printf_resolves_strings host_plain 3)
              [] [py "d:"; py "s"] false
              (machine 100 ["h"; "i"; x00]%byte) [PInt 7; PInt 100])
    as (ql' & args' & Hrun & Hmem & Hlen & Hslots).
  - apply not_elem_of_nil.
  - change (py "d:") with [100; 58]. change (py "s") with [115].
    repeat (apply Forall_cons_2;
            [intros Hin;
             repeat (apply elem_of_cons in Hin as [Hin|Hin];
                     [discriminate Hin|]);
             inversion Hin|]).
    constructor.
  - intros [|[|i]] seg Hseg Hs; vm_compute in Hseg; try discriminate.
    + injection Hseg as <-. vm_compute in Hs. discriminate.
    + exists 100, (py "hi"). split; reflexivity.
  - pose proof (Hslots 0%nat) as H0. pose proof (Hslots 1%nat) as H1.
    change ([py "d:"; py "s"] !! 0%nat) with (Some (py "d:")) in H0.
    change ([py "d:"; py "s"] !! 1%nat) with (Some (py "s")) in H1.
    cbv beta iota in H0, H1.
    change (startswith (py "d:") (py "s")) with false in H0.
    change (startswith (py "s") (py "s")) with true in H1.
    cbv beta iota in H0, H1. destruct H1 as (a & s & Ha & Hs & H1).
    injection Ha as <-. vm_compute in Hs. injection Hs as <-.
    assert (args' = [PInt 7; PStr (py "hi")]) as ->.
    { destruct args' as [|x [|y [|z args']]]; try discriminate Hlen.
      cbn [lookup list_lookup] in H0, H1.
      injection H0 as ->. injection H1 as ->. reflexivity. }
    exists ql', [PInt 7; PStr (py "hi")].
    split; [exact Hrun|]. split; [exact Hmem|reflexivity].
Defined.

Example common_printf_example :
  __common_printf host_plain 3 (py "%d:%s") false
    (machine 100 ["h"; "i"; x00]%byte, [PInt 7; PInt 100])
  = ((stats_log_string (py "hi") (machine 100 ["h"; "i"; x00]%byte),
      [PInt 7; PStr (py "hi")]),
     Ok (py "7:hi")).
Proof. vm_compute. reflexivity. Qed.

(** ** Printf-style formatting *)

Section FormattingFacts.

Variable host : fmt_arg -> Z -> pyval -> PyResult pystr.

Ltac step_cases :=
  unfold fmt_step, fmt_flags, fmt_after_width, fmt_after_prec, fmt_convert,
    phase_step, is_flag, is_length_modifier, set_flag;
  intros; repeat (simplify_eq; try case_match); simplify_eq.

(** A step moves the phase as [phase_step] says and uses an argument
    exactly where [phase_step] counts one. *)
Lemma fmt_step_phase st c next out st' used out' :
  fmt_step host st c next out = Val (st', used, out') ->
  phase_step (phase_of st) c = (phase_of st', if used then 1%nat else 0%nat).
Proof.
  destruct st; simpl phase_of; step_cases; try reflexivity.
Qed.

(** A step that uses no argument does not look at the next one. *)
Lemma fmt_step_unused st c next out st' out' :
  fmt_step host st c next out = Val (st', false, out') ->
  forall next', fmt_step host st c next' out = Val (st', false, out').
Proof.
  destruct st; step_cases; try reflexivity.
Qed.

(** A step that uses an argument raises [TypeError] when there is none. *)
Lemma fmt_step_missing st c v out st' out' :
  fmt_step host st c (Some v) out = Val (st', true, out') ->
  fmt_step host st c None out = Exn TypeError.
Proof.
  destruct st; step_cases; try reflexivity.
Qed.

Lemma fmt_step_none st c out st' used out' :
  fmt_step host st c None out = Val (st', used, out') -> used = false.
Proof.
  destruct st; step_cases; try reflexivity.
Qed.

(** A format that is substituted without error used all the arguments, and
    they were as many as [demand_from] counts. *)
Lemma fmt_run_demand (fmt : pystr) st (args : list pyval) out r :
  fmt_run host st args out fmt = Val r ->
  length args = demand_from (phase_of st) fmt.
Proof.
  revert st args out. induction fmt as [|c fmt IH]; intros st args out H.
  - simpl in H. destruct st; try discriminate.
    destruct args; [reflexivity|discriminate].
  - cbn [fmt_run demand_from] in *.
    destruct (fmt_step host st c (head args) out) as [[[st' used] out']|e] eqn:E;
      try discriminate.
    rewrite (fmt_step_phase _ _ _ _ _ _ _ E).
    apply IH in H. rewrite <- H. destruct used; [|reflexivity].
    destruct args as [|v args]; [|reflexivity].
    apply fmt_step_none in E. discriminate.
Qed.

(** More arguments than the format uses: not all arguments converted. *)
Lemma fmt_run_extra (fmt : pystr) st (args extra : list pyval) out r :
  fmt_run host st args out fmt = Val r ->
  extra <> [] ->
  fmt_run host st (args ++ extra) out fmt = Exn TypeError.
Proof.
  intros H Hex. revert st args out H.
  induction fmt as [|c fmt IH]; intros st args out H.
  - simpl in *. destruct st; try discriminate.
    destruct args; [|discriminate]. destruct extra; [congruence|reflexivity].
  - cbn [fmt_run] in *.
    destruct (fmt_step host st c (head args) out) as [[[st' used] out']|e] eqn:E;
      try discriminate.
    destruct args as [|v args].
    + pose proof (fmt_step_none _ _ _ _ _ _ E) as ->.
      rewrite (fmt_step_unused _ _ _ _ _ _ E). apply (IH _ [] _ H).
    + cbn [app head]. cbn [head] in E. rewrite E.
      destruct used; [apply (IH _ _ _ H)|apply (IH _ (v :: args) _ H)].
Qed.

(** Fewer arguments than the format uses: not enough arguments. *)
Lemma fmt_run_short (fmt : pystr) st (args extra : list pyval) out r :
  fmt_run host st (args ++ extra) out fmt = Val r ->
  extra <> [] ->
  fmt_run host st args out fmt = Exn TypeError.
Proof.
  intros H Hex. revert st args out H.
  induction fmt as [|c fmt IH]; intros st args out H.
  - simpl in H. destruct st; try discriminate.
    destruct args, extra; try discriminate; congruence.
  - cbn [fmt_run] in *.
    destruct (fmt_step host st c (head (args ++ extra)) out)
      as [[[st' used] out']|e] eqn:E; try discriminate.
    destruct args as [|v args].
    + destruct extra as [|x extra]; [congruence|]. cbn [app head] in *.
      destruct used.
      * rewrite (fmt_step_missing _ _ _ _ _ _ E). reflexivity.
      * rewrite (fmt_step_unused _ _ _ _ _ _ E). apply (IH _ [] _ H).
    + cbn [app head] in *. rewrite E.
      destruct used; [apply (IH _ _ _ H)|apply (IH _ (v :: args) _ H)].
Qed.

End FormattingFacts.

(** C9, as amended: when the resolution pass has ended and the argument
    list is not as long as the number of arguments the final substitution
    consumes (one per conversion, one more for each [*] width or precision,
    none for [%%]; a substitution that returns has consumed exactly that
    many), [__common_printf] returns no text: it ends in the exception the
    substitution raises, unchanged, with the state the pass left; nothing is
    caught, retried or cut short. The exception is the [TypeError] of the
    arity check when the format is otherwise in order, in that some list
    which extends the arguments, or of which they are an extension, is
    substituted without error: so [%d %d] of one argument and [%d] of two
    arguments raise [TypeError]. A format that is not in order raises its
    own error: the incomplete [abc%] of one argument raises [ValueError]. *)
Theorem arity_mismatch_raises host fuel :
  (forall (format : pystr) wstring ql (args : list pyval) ql'
          (args' : list pyval),
      resolve_strings fuel wstring (segments format) (ql, args)
        = ((ql', args'), Ok tt) ->
      length args' <> fmt_demand (normalized format) ->
      (exists e,
         __common_printf host fuel format wstring (ql, args)
         = ((ql', args'), Raise e)
         /\ py_mod host (normalized format) args' = Exn e)
      /\ (forall good out,
            py_mod host (normalized format) good = Val out ->
            args' `prefix_of` good \/ good `prefix_of` args' ->
            __common_printf host fuel format wstring (ql, args)
            = ((ql', args'), Raise TypeError)))
  /\ (forall (format : pystr) (args : list pyval) out,
        py_mod host format args = Val out ->
        length args = fmt_demand format)
  /\ fmt_demand (py "%d %d") = 2%nat
  /\ fmt_demand (py "%*d %% %.*x") = 4%nat
  /\ (forall wstring ql,
        __common_printf host fuel (py "%d %d") wstring (ql, [PInt 1])
        = ((ql, [PInt 1]), Raise TypeError))
  /\ (forall wstring ql,
        __common_printf host fuel (py "%d") wstring (ql, [PInt 1; PInt 2])
        = ((ql, [PInt 1; PInt 2]), Raise TypeError))
  /\ (forall wstring ql,
        __common_printf host fuel (py "abc%") wstring (ql, [PInt 1])
        = ((ql, [PInt 1]), Raise ValueError)).
Proof.
  split; [|split; [|repeat split; intros; rewrite ?common_printf_eq; reflexivity]].
  - intros format wstring ql args ql' args' Hrun Hlen.
    rewrite common_printf_eq, Hrun. split.
    + destruct (py_mod host (normalized format) args') as [out|e] eqn:E.
      * apply fmt_run_demand in E. contradiction.
      * exists e. split; reflexivity.
    + intros good out Hgood Hpre.
      pose proof (fmt_run_demand _ _ _ _ _ _ Hgood) as Hd.
      assert (py_mod host (normalized format) args' = Exn TypeError) as ->;
        [|reflexivity].
      destruct Hpre as [[extra ->]|[extra ->]].
      * eapply fmt_run_short; [exact Hgood|].
        intros ->. rewrite app_nil_r in Hd. contradiction.
      * eapply fmt_run_extra; [exact Hgood|].
        intros ->. rewrite app_nil_r in Hlen. contradiction.
  - intros format args out H. apply (fmt_run_demand _ _ _ _ _ _ H).
Qed.

Lemma arity_mismatch_raises_witness :
  (exists e,
     __common_printf host_plain 0 (py "%d %d") false (machine 0 [], [PInt 1])
     = ((machine 0 [], [PInt 1]), Raise e)
     /\ py_mod host_plain (normalized (py "%d %d")) [PInt 1] = Exn e)
  /\ py_mod host_plain (normalized (py "%d %d")) [PInt 1; PInt 2]
     = Val (py "1 2")
  /\ __common_printf host_plain 0 (py "%d %d") false (machine 0 [], [PInt 1])
     = ((machine 0 [], [PInt 1]), Raise TypeError).
Proof.
  destruct (proj1 (arity_mismatch_raises host_plain 0) (py "%d %d") false
              (machine 0 []) [PInt 1] (machine 0 []) [PInt 1])
    as [H1 H2].
  - reflexivity.
  - vm_compute. lia.
  - split; [exact H1|]. split; [reflexivity|].
    apply (H2 [PInt 1; PInt 2] (py "1 2")); [reflexivity|].
    left. exists [PInt 2]. reflexivity.
Defined.

(** C9 as stated fails for a format that is not in order: [abc%] ends in
    an incomplete specifier, its substitution consumes no argument, and
    with one argument, as with two, [__common_printf] raises the
    [ValueError] of the incomplete format, not the arity error; so does
    [%y] with two arguments, for its unsupported character. *)
Lemma arity_error_malformed_format_counterexample :
  resolve_strings 0 false (segments (py "abc%")) (machine 0 [], [PInt 1])
  = ((machine 0 [], [PInt 1]), Ok tt)
  /\ fmt_demand (normalized (py "abc%")) = 0%nat
  /\ length [PInt 1] <> fmt_demand (normalized (py "abc%"))
  /\ __common_printf host_plain 0 (py "abc%") false (machine 0 [], [PInt 1])
     = ((machine 0 [], [PInt 1]), Raise ValueError)
  /\ __common_printf host_plain 0 (py "abc%") false
       (machine 0 [], [PInt 1; PInt 2])
     = ((machine 0 [], [PInt 1; PInt 2]), Raise ValueError)
  /\ __common_printf host_plain 0 (py "%y") false
       (machine 0 [], [PInt 1; PInt 2])
     = ((machine 0 [], [PInt 1; PInt 2]), Raise ValueError)
  /\ ValueError <> TypeError.
Proof.
  repeat split; try reflexivity; [vm_compute; lia|discriminate].
Qed.

Example too_few_arguments :
  py_mod host_plain (py "%d %d") [PInt 1] = Exn TypeError.
Proof. reflexivity. Qed.

Example too_many_arguments :
  py_mod host_plain (py "%d") [PInt 1; PInt 2] = Exn TypeError.
Proof. reflexivity. Qed.

Example star_takes_an_argument :
  fmt_demand (py "%*d %% %.*x") = 4%nat.
Proof. reflexivity. Qed.

(** ** Normalization *)

Ltac not_in_list :=
  let H := fresh in
  intros H;
  repeat (apply elem_of_cons in H as [H|H]; [discriminate H|]);
  inversion H.

Lemma replace_llx_every :
  replaces_every (py "%llx") (py "%x")
    (fun s => replace s (py "%llx") (py "%x")).
Proof.
  change (py "%llx") with [37; 108; 108; 120]. change (py "%x") with [37; 120].
  split.
  - intros s H. apply replace_from_absent, H.
  - intros a b H. apply (replace_from_leftmost 37 [108; 108; 120]); [|exact H].
    not_in_list.
Qed.

Lemma replace_p_every :
  replaces_every (py "%p") (py "%#x")
    (fun s => replace s (py "%p") (py "%#x")).
Proof.
  change (py "%p") with [37; 112]. change (py "%#x") with [37; 35; 120].
  split.
  - intros s H. apply replace_from_absent, H.
  - intros a b H. apply (replace_from_leftmost 37 [112]); [|exact H].
    not_in_list.
Qed.

Lemma normalized_clean (format : pystr) :
  contains (normalized format) (py "%llx") = false
  /\ contains (normalized format) (py "%p") = false.
Proof.
  unfold normalized, replace.
  change (py "%llx") with [37; 108; 108; 120]. change (py "%x") with [37; 120].
  change (py "%p") with [37; 112]. change (py "%#x") with [37; 35; 120].
  split.
  - apply (contains_replace_from 37 [112] [35; 120] [108; 108; 120]);
      [not_in_list|not_in_list|reflexivity|right].
    apply (contains_replace_from 37 [108; 108; 120] [120] [108; 108; 120]);
      [not_in_list|not_in_list|reflexivity|left; reflexivity].
  - apply (contains_replace_from 37 [112] [35; 120] [112]);
      [not_in_list|not_in_list|reflexivity|left; reflexivity].
Qed.

(** C6: before the substitution the format is rewritten: every occurrence
    of [%llx] becomes [%x], then every occurrence of [%p] becomes [%#x], so
    that neither is left, and the arguments are substituted into the result;
    so [%llx] of 255 gives [ff] and [%p] of 0x1000 gives [0x1000]. *)
Theorem common_printf_normalizes host fuel wstring :
  (forall format st ql' args',
      resolve_strings fuel wstring (segments format) st = ((ql', args'), Ok tt) ->
      __common_printf host fuel format wstring st
      = ((ql', args'),
         of_py (py_mod host
                  (replace (replace format (py "%llx") (py "%x"))
                     (py "%p") (py "%#x"))
                  args')))
  /\ replaces_every (py "%llx") (py "%x")
       (fun s => replace s (py "%llx") (py "%x"))
  /\ replaces_every (py "%p") (py "%#x")
       (fun s => replace s (py "%p") (py "%#x"))
  /\ (forall format,
        contains (normalized format) (py "%llx") = false
        /\ contains (normalized format) (py "%p") = false)
  /\ (forall ql,
        __common_printf host fuel (py "%llx") wstring (ql, [PInt 255])
        = ((ql, [PInt 255]), Ok (py "ff")))
  /\ (forall ql,
        __common_printf host fuel (py "%p") wstring (ql, [PInt 0x1000])
        = ((ql, [PInt 0x1000]), Ok (py "0x1000"))).
Proof.
  split; [|split; [|split; [|split; [|split]]]].
  - intros format st ql' args' Hrun. rewrite common_printf_eq, Hrun.
    reflexivity.
  - exact replace_llx_every.
  - exact replace_p_every.
  - exact normalized_clean.
  - intros ql. rewrite common_printf_eq. reflexivity.
  - intros ql. rewrite common_printf_eq. reflexivity.
Qed.

Lemma common_printf_normalizes_witness :
  __common_printf host_plain 0 (py "%llx %p") false
    (machine 0 [], [PInt 255; PInt 0x1000])
  = ((machine 0 [], [PInt 255; PInt 0x1000]),
     of_py (py_mod host_plain
              (replace (replace (py "%llx %p") (py "%llx") (py "%x"))
                 (py "%p") (py "%#x"))
              [PInt 255; PInt 0x1000])).
Proof.
  apply (proj1 (common_printf_normalizes host_plain 0 false)).
  reflexivity.
Defined.

Example common_printf_normalizes_example :
  __common_printf host_plain 0 (py "%llx %p") false
    (machine 0 [], [PInt 255; PInt 0x1000])
  = ((machine 0 [], [PInt 255; PInt 0x1000]), Ok (py "ff 0x1000")).
Proof. reflexivity. Qed.

(** ** Invocation tracing *)

Lemma assign_arg_trace_pair (name value : pystr) :
  __assign_arg name value = trace_pair (name, value).
Proof.
  unfold __assign_arg, trace_pair.
  destruct name as [|c name]; [reflexivity|].
  cbn [length Nat.eqb orb].
  destruct (startswith (c :: name) ELLIPSIS_PREF); reflexivity.
Qed.

Lemma map_assign_arg (pargs : list (pystr * pystr)) :
  map (fun '(name, value) => __assign_arg name value) pargs
  = map trace_pair pargs.
Proof. apply map_ext. intros [name value]. apply assign_arg_trace_pair. Qed.



Example print_function_debug :
  print_function 4 0x4010 (py "hook_strcpy")
    [(py "dst", py "0x2000"); (py "__qlva_0", py "0x3000")]
    (RetInt 5) true (mkQiling 32 4 4 ∅ [] [] [])
  = (log_emit LogDebug
       (py "0x00004010: strcpy(dst = 0x2000, 0x3000) = 0x5 (PASSTHRU)")
       (mkQiling 32 4 4 ∅ [] [] []),
     Ok tt).
Proof. vm_compute. reflexivity. Qed.


(** ** Codecs *)

Lemma byte_to_of_Z (z : Z) : 0 <= z < 256 -> byte_to_Z (byte_of_Z z) = z.
Proof.
  intros Hz. unfold byte_to_Z, byte_of_Z.
  destruct (Byte.of_N (Z.to_N z)) as [b|] eqn:E.
  - apply Byte.to_of_N in E. rewrite E. lia.
  - apply Byte.of_N_None_iff in E. lia.
Qed.

Lemma byte_of_Z_nonzero (z : Z) : 0 < z < 256 -> byte_of_Z z <> x00.
Proof.
  intros Hz H. apply (f_equal byte_to_Z) in H.
  rewrite byte_to_of_Z in H by lia. change (byte_to_Z x00) with 0 in H. lia.
Qed.

Lemma map_byte_to_of_Z (zs : list Z) :
  Forall (fun z => 0 <= z < 256) zs ->
  map byte_to_Z (map byte_of_Z zs) = zs.
Proof.
  induction 1 as [|z zs Hz _ IH]; [reflexivity|].
  cbn [map]. rewrite byte_to_of_Z, IH by exact Hz. reflexivity.
Qed.

Lemma encode_with_app units (s t : pystr) :
  encode_with units (s ++ t)
  = match encode_with units s, encode_with units t with
    | Some a, Some b => Some (a ++ b)
    | _, _ => None
    end.
Proof.
  induction s as [|c s IH]; cbn [app encode_with].
  - destruct (encode_with units t); reflexivity.
  - rewrite IH. destruct (units c) as [u|]; [|reflexivity].
    destruct (encode_with units s) as [a|]; [|reflexivity].
    destruct (encode_with units t) as [b|]; [|reflexivity].
    rewrite app_assoc. reflexivity.
Qed.

Ltac zdm := Z.div_mod_to_equations; lia.

Ltac zbool :=
  repeat match goal with
    | |- context [?a <? ?b] => destruct (Z.ltb_spec a b); try lia
    | |- context [?a <=? ?b] => destruct (Z.leb_spec a b); try lia
    | |- context [?a =? ?b] => destruct (Z.eqb_spec a b); try lia
    | H : context [?a <? ?b] |- _ => destruct (Z.ltb_spec a b); try lia
    | H : context [?a <=? ?b] |- _ => destruct (Z.leb_spec a b); try lia
    | H : context [?a =? ?b] |- _ => destruct (Z.eqb_spec a b); try lia
    end.

(** The code units of a code point are bytes, none of them zero unless the
    code point is. *)
Lemma utf8_units_bytes (c : Z) (u : list Z) :
  utf8_units c = Some u ->
  Forall (fun z => 0 <= z < 256) u /\ (c <> 0 -> Forall (fun z => 0 < z) u).
Proof.
  unfold utf8_units, is_surrogate. intros H.
  zbool; cbn [andb] in H; try discriminate; injection H as <-;
    (split; [|intros Hc]); repeat (apply Forall_cons_2; [zdm|]);
    apply Forall_nil_2.
Qed.

(** Decoding undoes encoding, one code point at a time. *)
Lemma utf8_decode_units (c : Z) (u rest : list Z) :
  utf8_units c = Some u ->
  utf8_decode_ignore (u ++ rest) = c :: utf8_decode_ignore rest.
Proof.
  unfold utf8_units, is_surrogate. intros H.
  zbool; cbn [andb] in H; try discriminate; injection H as <-;
    cbn [app utf8_decode_ignore]; unfold is_continuation;
    Z.div_mod_to_equations; zbool; cbn [andb orb negb]; f_equal; lia.
Qed.

Lemma utf8_encode_decode (s : pystr) (zs : list Z) :
  encode_with utf8_units s = Some zs ->
  utf8_decode_ignore zs = s
  /\ Forall (fun z => 0 <= z < 256) zs
  /\ (Forall (fun c => c <> 0) s -> Forall (fun z => 0 < z) zs).
Proof.
  revert zs. induction s as [|c s IH]; intros zs H; cbn [encode_with] in H.
  - injection H as <-. repeat split; auto.
  - destruct (utf8_units c) as [u|] eqn:Eu; [|discriminate].
    destruct (encode_with utf8_units s) as [r|]; [|discriminate].
    injection H as <-. destruct (IH r eq_refl) as (Hdec & Hb & Hnz).
    destruct (utf8_units_bytes _ _ Eu) as [Hub Hunz].
    split; [|split].
    + rewrite (utf8_decode_units _ _ _ Eu), Hdec. reflexivity.
    + apply Forall_app. auto.
    + intros Hs. apply Forall_cons in Hs as [Hc Hs]. apply Forall_app. auto.
Qed.

Lemma encode_terminated (wstring : bool) (out : pystr) (body : list byte) :
  encode (codec wstring) out = Val body ->
  encode (codec wstring) (out ++ [0]) = Val (body ++ terminator wstring).
Proof.
  unfold encode. rewrite encode_with_app.
  destruct (encode_with _ out) as [zs|]; [|discriminate].
  intros [= <-]. destruct wstring; cbn; rewrite map_app; reflexivity.
Qed.

Lemma encode_unterminated (wstring : bool) (out : pystr) (data : list byte) :
  encode (codec wstring) (out ++ [0]) = Val data ->
  exists body, encode (codec wstring) out = Val body
    /\ data = body ++ terminator wstring.
Proof.
  intros H. destruct (encode (codec wstring) out) as [body|e] eqn:E.
  - exists body. split; [reflexivity|].
    rewrite (encode_terminated _ _ _ E) in H. congruence.
  - exfalso. unfold encode in *. rewrite encode_with_app in H.
    destruct (encode_with _ out); discriminate.
Qed.

(** ** The sinks *)

Lemma sprintf_eq host fuel (buff : Z) (format : pystr) wstring
    (st : Qiling * list pyval) :
  sprintf host fuel buff format wstring st
  = match __common_printf host fuel format wstring st with
    | ((ql1, args1), Ok out) =>
        match encode (codec wstring) (out ++ [0]) with
        | Val data =>
            match write_bytes (mem ql1) buff data with
            | Some m2 => ((set_mem m2 ql1, args1), Ok (Z.of_nat (length out)))
            | None => ((ql1, args1), Raise MemoryAccessError)
            end
        | Exn e => ((ql1, args1), Raise e)
        end
    | (st1, Raise e) => (st1, Raise e)
    | (st1, OutOfFuel) => (st1, OutOfFuel)
    end.
Proof.
  unfold sprintf. unfold bind at 1.
  destruct (__common_printf _ _ _ _ st) as [[ql1 args1] [out|e|]];
    try reflexivity.
  unfold bind at 1. unfold lift at 1. fold (codec wstring).
  destruct (encode (codec wstring) (out ++ [0])) as [data|e]; [|reflexivity].
  cbn [of_py]. unfold bind, on_ql, mem_write.
  destruct (write_bytes (mem ql1) buff data); reflexivity.
Qed.

(** C4: [sprintf] writes at [buff] the interpreted text and one null
    character, in UTF-8 when [wstring] is unset and in UTF-16 little-endian
    when it is set, changes no other address, and returns the number of
    characters of the text, the terminator not counted; this whenever the
    text can be interpreted and encoded and the buffer is mapped. With the
    format [%s] and a pointer to [hi] it writes [hi] and the null character
    of the encoding and returns 2. *)
Theorem sprintf_writes_text host fuel :
  (forall buff format wstring ql args ql1 args1 out body,
      __common_printf host fuel format wstring (ql, args)
        = ((ql1, args1), Ok out) ->
      encode (codec wstring) out = Val body ->
      (forall i, (i < length (body ++ terminator wstring))%nat ->
         is_Some (mem ql1 !! (buff + Z.of_nat i))) ->
      exists m2,
        sprintf host fuel buff format wstring (ql, args)
        = ((set_mem m2 ql1, args1), Ok (Z.of_nat (length out)))
        /\ read_bytes m2 buff (length (body ++ terminator wstring))
           = Some (body ++ terminator wstring)
        /\ forall x,
             x < buff \/ buff + Z.of_nat (length (body ++ terminator wstring)) <= x ->
             m2 !! x = mem ql1 !! x)
  /\ (exists ql2,
        sprintf host 3 103 (py "%s") false
          (machine 100 ["h"; "i"; x00; "?"; "?"; "?"; "?"]%byte, [PInt 100])
        = ((ql2, [PStr (py "hi")]), Ok 2)
        /\ read_bytes (mem ql2) 103 3 = Some ["h"; "i"; x00]%byte)
  /\ (exists ql2,
        sprintf host 3 106 (py "%s") true
          (machine 100
             ["h"; x00; "i"; x00; x00; x00; "?"; "?"; "?"; "?"; "?"; "?"; "?"]%byte,
           [PInt 100])
        = ((ql2, [PStr (py "hi")]), Ok 2)
        /\ read_bytes (mem ql2) 106 6
           = Some ["h"; x00; "i"; x00; x00; x00]%byte).
Proof.
  split; [|split].
  - intros buff format wstring ql args ql1 args1 out body Hout Henc Hmap.
    destruct (write_bytes_mapped (mem ql1) buff _ Hmap) as [m2 Hw].
    exists m2. rewrite sprintf_eq, Hout, (encode_terminated _ _ _ Henc), Hw.
    split; [reflexivity|]. split.
    + eapply read_write_bytes, Hw.
    + intros x Hx. eapply write_bytes_frame; eassumption.
  - eexists. split; vm_compute; reflexivity.
  - eexists. split; vm_compute; reflexivity.
Qed.

Lemma sprintf_writes_text_witness :
  exists m2,
    sprintf host_plain 3 103 (py "%s") false
      (machine 100 ["h"; "i"; x00; "?"; "?"; "?"; "?"]%byte, [PInt 100])
    = ((set_mem m2
          (stats_log_string (py "hi")
             (machine 100 ["h"; "i"; x00; "?"; "?"; "?"; "?"]%byte)),
        [PStr (py "hi")]),
       Ok (Z.of_nat (length (py "hi"))))
    /\ read_bytes m2 103 (length (["h"; "i"]%byte ++ terminator false))
       = Some (["h"; "i"]%byte ++ terminator false)
    /\ forall x,
         x < 103
         \/ 103 + Z.of_nat (length (["h"; "i"]%byte ++ terminator false)) <= x ->
         m2 !! x
         = mem (stats_log_string (py "hi")
                  (machine 100 ["h"; "i"; x00; "?"; "?"; "?"; "?"]%byte)) !! x.
Proof.
  apply (proj1 (sprintf_writes_text host_plain 3) 103 (py "%s") false
           (machine 100 ["h"; "i"; x00; "?"; "?"; "?"; "?"]%byte) [PInt 100]
           (stats_log_string (py "hi")
              (machine 100 ["h"; "i"; x00; "?"; "?"; "?"; "?"]%byte))
           [PStr (py "hi")] (py "hi") ["h"; "i"]%byte).
  - vm_compute. reflexivity.
  - vm_compute. reflexivity.
  - intros i Hi. cbn in Hi.
    destruct i as [|[|[|i]]]; try lia; vm_compute; eauto.
Defined.

(** ** Reading back what [sprintf] wrote *)

Lemma utf8_encode_length (s : pystr) (zs : list Z) :
  encode_with utf8_units s = Some zs -> (length zs <= 4 * length s)%nat.
Proof.
  revert zs. induction s as [|c s IH]; intros zs H; cbn [encode_with] in H.
  - injection H as <-. simpl. lia.
  - destruct (utf8_units c) as [u|] eqn:Eu; [|discriminate].
    destruct (encode_with utf8_units s) as [r|]; [|discriminate].
    injection H as <-. specialize (IH r eq_refl).
    rewrite length_app. cbn [length].
    assert (length u <= 4)%nat; [|lia].
    unfold utf8_units in Eu.
    repeat match type of Eu with
           | (if ?b then _ else _) = _ => destruct b
           end; try discriminate; injection Eu as <-; simpl; lia.
Qed.

Lemma utf16le_encode_ascii (s : pystr) :
  Forall (fun c => 1 <= c < 128) s ->
  encode_with utf16le_units s = Some (flat_map (fun c => [c; 0]) s).
Proof.
  induction 1 as [|c s Hc _ IH]; [reflexivity|].
  cbn [encode_with flat_map]. rewrite IH.
  assert (utf16le_units c = Some [c; 0]) as ->; [|reflexivity].
  unfold utf16le_units, is_surrogate.
  zbool; cbn [andb]; repeat f_equal; zdm.
Qed.

Lemma utf8_decode_ascii (zs : list Z) :
  Forall (fun z => 0 <= z < 128) zs -> utf8_decode_ignore zs = zs.
Proof.
  induction 1 as [|z zs Hz _ IH]; [reflexivity|].
  cbn [utf8_decode_ignore]. destruct (Z.ltb_spec z 128); [|lia].
  rewrite IH. reflexivity.
Qed.

Lemma strip_nulls_ascii (s : pystr) :
  Forall (fun c => 1 <= c < 128) s ->
  replace (flat_map (fun c => [c; 0]) s) [0] [] = s.
Proof.
  intros H. rewrite replace_single_empty.
  induction H as [|c s Hc _ IH]; [reflexivity|].
  cbn [flat_map app]. rewrite filter_cons_True by lia.
  rewrite filter_cons_False by (intros Hn; apply Hn; reflexivity).
  rewrite IH. reflexivity.
Qed.

(** Memory that holds the encoded text and its terminator is read back as
    the text. *)
Lemma read_back_narrow fuel (buff : Z) ql (out : pystr) (body : list byte) :
  encode utf_8 out = Val body ->
  Forall (fun c => c <> 0) out ->
  read_bytes (mem ql) buff (length (body ++ [x00])) = Some (body ++ [x00]) ->
  (4 * length out < fuel)%nat ->
  read_cstring fuel buff ql = (stats_log_string out ql, Ok out).
Proof.
  unfold encode. intros Henc Hnz Hmem Hfuel.
  destruct (encode_with utf8_units out) as [zs|] eqn:E; [|discriminate].
  injection Henc as <-.
  destruct (utf8_encode_decode _ _ E) as (Hdec & Hb & Hpos).
  specialize (Hpos Hnz). pose proof (utf8_encode_length _ _ E) as Hlen.
  rewrite read_cstring_eq.
  assert (concat (map (fun b => [b]) (map byte_of_Z zs)) = map byte_of_Z zs)
    as Hcat.
  { generalize (map byte_of_Z zs). intros l.
    induction l as [|b l IH]; [reflexivity|]. simpl. rewrite IH. reflexivity. }
  rewrite (read_string_chunks ql [x00] (map (fun b => [b]) (map byte_of_Z zs))).
  - cbn [snd]. rewrite Hcat. unfold decode_ignore.
    rewrite (map_byte_to_of_Z _ Hb), Hdec. reflexivity.
  - rewrite Forall_map, Forall_map.
    apply Forall_forall. intros z Hz. split; [reflexivity|].
    intros [= Hx]. apply (byte_of_Z_nonzero z); [|exact Hx].
    pose proof (proj1 (Forall_forall _ _) Hb z Hz).
    pose proof (proj1 (Forall_forall _ _) Hpos z Hz). simpl in *. lia.
  - rewrite Hcat. rewrite length_app in Hmem. exact Hmem.
  - rewrite !length_map. lia.
Qed.

Lemma read_back_wide fuel (buff : Z) ql (out : pystr) (body : list byte) :
  encode utf_16le out = Val body ->
  Forall (fun c => 1 <= c < 128) out ->
  read_bytes (mem ql) buff (length (body ++ [x00; x00]))
    = Some (body ++ [x00; x00]) ->
  (4 * length out < fuel)%nat ->
  read_wstring fuel buff ql = (stats_log_string out ql, Ok out).
Proof.
  unfold encode. intros Henc Hasc Hmem Hfuel.
  rewrite (utf16le_encode_ascii _ Hasc) in Henc. injection Henc as <-.
  rewrite read_wstring_eq.
  assert (concat (map (fun c => [byte_of_Z c; x00]) out)
          = map byte_of_Z (flat_map (fun c => [c; 0]) out)) as Hcat.
  { clear. induction out as [|c out IH]; [reflexivity|].
    cbn [map concat flat_map app]. rewrite IH. reflexivity. }
  rewrite (read_string_chunks ql [x00; x00]
             (map (fun c => [byte_of_Z c; x00]) out)).
  - cbn [snd]. rewrite Hcat. unfold decode_ignore.
    assert (Forall (fun z => 0 <= z < 128) (flat_map (fun c => [c; 0]) out))
      as Hsmall.
    { clear -Hasc. induction Hasc as [|c out Hc _ IH]; [constructor|].
      cbn [flat_map app]. repeat (apply Forall_cons_2; [lia|]). exact IH. }
    rewrite map_byte_to_of_Z
      by (eapply Forall_impl; [exact Hsmall|]; simpl; intros; lia).
    rewrite (utf8_decode_ascii _ Hsmall), (strip_nulls_ascii _ Hasc).
    reflexivity.
  - rewrite Forall_map. eapply Forall_impl; [exact Hasc|].
    intros c Hc. cbv beta in Hc. split; [reflexivity|].
    intros [= Hx]. apply (byte_of_Z_nonzero c); [lia|exact Hx].
  - rewrite Hcat. rewrite length_app in Hmem. exact Hmem.
  - rewrite length_map. lia.
Qed.

(** C5, as amended: when the interpreted text holds no null character, and
    for a wide buffer only characters of the ASCII range, the text that
    [sprintf] wrote is read back from the same address by the reader of the
    same width ([read_cstring] for a narrow buffer, [read_wstring] for a
    wide one), given fuel for its bytes. *)
Theorem sprintf_read_back host fuel fuel' (buff : Z) (format : pystr)
    (wstring : bool) ql (args : list pyval) ql1 args1 (out : pystr)
    ql2 args2 (n : Z) :
  __common_printf host fuel format wstring (ql, args)
    = ((ql1, args1), Ok out) ->
  sprintf host fuel buff format wstring (ql, args) = ((ql2, args2), Ok n) ->
  readable_back wstring out ->
  (4 * length out < fuel')%nat ->
  (if wstring then read_wstring fuel' buff else read_cstring fuel' buff) ql2
  = (stats_log_string out ql2, Ok out).
Proof.
  intros Hout Hs Hread Hfuel. rewrite sprintf_eq, Hout in Hs.
  destruct (encode (codec wstring) (out ++ [0])) as [data|e] eqn:Henc;
    [|discriminate].
  destruct (write_bytes (mem ql1) buff data) as [m2|] eqn:Hw; [|discriminate].
  injection Hs as <- _ _.
  apply encode_unterminated in Henc as (body & Henc & ->).
  apply read_write_bytes in Hw.
  destruct wstring; cbn [codec terminator readable_back] in *.
  - eapply read_back_wide; eassumption.
  - eapply read_back_narrow; eassumption.
Qed.

Lemma sprintf_read_back_witness :
  read_cstring 9 103
    (set_mem (store_bytes
                (mem (machine 100 ["h"; "i"; x00; "?"; "?"; "?"; "?"]%byte))
                103 ["h"; "i"; x00]%byte)
       (stats_log_string (py "hi")
          (machine 100 ["h"; "i"; x00; "?"; "?"; "?"; "?"]%byte)))
  = (stats_log_string (py "hi")
       (set_mem (store_bytes
                   (mem (machine 100 ["h"; "i"; x00; "?"; "?"; "?"; "?"]%byte))
                   103 ["h"; "i"; x00]%byte)
          (stats_log_string (py "hi")
             (machine 100 ["h"; "i"; x00; "?"; "?"; "?"; "?"]%byte))),
     Ok (py "hi")).
Proof.
  apply (sprintf_read_back host_plain 3 9 103 (py "%s") false
           (machine 100 ["h"; "i"; x00; "?"; "?"; "?"; "?"]%byte) [PInt 100]
           (stats_log_string (py "hi")
              (machine 100 ["h"; "i"; x00; "?"; "?"; "?"; "?"]%byte))
           [PStr (py "hi")] (py "hi") _ [PStr (py "hi")] 2).
  - vm_compute. reflexivity.
  - vm_compute. reflexivity.
  - repeat (apply Forall_cons_2; [discriminate|]). apply Forall_nil_2.
  - vm_compute. lia.
Defined.

(** C5 as stated fails in both widths. A wide buffer loses a character
    outside the ASCII range: [%c] of 233 is written as the bytes E9 00 and a
    terminator, which no reader decodes from UTF-8. A narrow buffer loses a
    null character and what follows it: [%c] of 0 is read back as the empty
    string. *)
Lemma sprintf_read_back_counterexample :
  (exists ql2,
      sprintf host_plain 0 100 (py "%c") true
        (machine 100 ["?"; "?"; "?"; "?"]%byte, [PInt 233])
      = ((ql2, [PInt 233]), Ok 1)
      /\ snd (__common_printf host_plain 0 (py "%c") true
                (machine 100 ["?"; "?"; "?"; "?"]%byte, [PInt 233]))
         = Ok [233]
      /\ forall fuel', (1 < fuel')%nat ->
           snd (read_wstring fuel' 100 ql2) = Ok [])
  /\ (exists ql2,
        sprintf host_plain 0 100 (py "%c") false
          (machine 100 ["?"; "?"; "?"; "?"]%byte, [PInt 0])
        = ((ql2, [PInt 0]), Ok 1)
        /\ snd (__common_printf host_plain 0 (py "%c") false
                  (machine 100 ["?"; "?"; "?"; "?"]%byte, [PInt 0]))
           = Ok [0]
        /\ forall fuel', (0 < fuel')%nat ->
             snd (read_cstring fuel' 100 ql2) = Ok []).
Proof.
  split.
  - eexists. split; [vm_compute; reflexivity|]. split; [reflexivity|].
    intros fuel' Hf. destruct fuel' as [|[|fuel']]; try lia.
    vm_compute. reflexivity.
  - eexists. split; [vm_compute; reflexivity|]. split; [reflexivity|].
    intros fuel' Hf. destruct fuel' as [|fuel']; try lia.
    vm_compute. reflexivity.
Qed.

(** * Further properties of the utilities *)

(** ** [read_string] ends *)

Lemma gmap_bounded (m : gmap Z byte) :
  exists hi, forall k, is_Some (m !! k) -> k < hi.
Proof.
  induction m as [|k v m Hk [hi IH]] using map_ind.
  - exists 0. intros k [v Hv]. rewrite lookup_empty in Hv. discriminate.
  - exists (Z.max hi (k + 1)). intros j Hj.
    destruct (decide (k = j)) as [->|Hne]; [lia|].
    rewrite lookup_insert_ne in Hj by exact Hne. specialize (IH j Hj). lia.
Qed.

Lemma read_bytes_first m a n bs :
  read_bytes m a (S n) = Some bs -> is_Some (m !! a).
Proof. simpl. destruct (m !! a); [eauto|discriminate]. Qed.

(** Past the last mapped address the scan fails, so a fuel above the
    distance to it is never used up. *)
Lemma read_string_loop_terminates ql (term : list byte) (n : nat) (hi : Z) :
  (0 < n)%nat ->
  (forall k, is_Some (mem ql !! k) -> k < hi) ->
  forall fuel a acc c,
    hi - a < Z.of_nat fuel -> (0 < fuel)%nat ->
    snd (read_string_loop fuel a term n acc c ql) <> OutOfFuel.
Proof.
  intros Hn Hhi. induction fuel as [|fuel IH]; intros a acc c Hf Hpos; [lia|].
  cbn [read_string_loop]. destruct (decide _); [discriminate|].
  unfold bind, mem_read.
  destruct (read_bytes (mem ql) (a + Z.of_nat n) n) as [bs|] eqn:E;
    [|discriminate].
  destruct n as [|n']; [lia|].
  apply read_bytes_first, Hhi in E. apply IH; lia.
Qed.

(** More fuel does not change an outcome reached with less. *)
Lemma read_string_loop_more_fuel ql (term : list byte) (n : nat) fuel a acc c :
  snd (read_string_loop fuel a term n acc c ql) <> OutOfFuel ->
  read_string_loop (S fuel) a term n acc c ql
  = read_string_loop fuel a term n acc c ql.
Proof.
  revert a acc c. induction fuel as [|fuel IH]; intros a acc c H.
  - exfalso. apply H. reflexivity.
  - remember (S fuel) as f eqn:Hf. cbn [read_string_loop]. subst f.
    cbn [read_string_loop] in *. destruct (decide _); [reflexivity|].
    unfold bind, mem_read in *.
    destruct (read_bytes (mem ql) (a + Z.of_nat n) n) as [bs|]; [|reflexivity].
    apply IH, H.
Qed.

Lemma read_string_more_fuel ql (term : list byte) fuel fuel' a :
  snd (read_string fuel a term ql) <> OutOfFuel ->
  (fuel <= fuel')%nat ->
  read_string fuel' a term ql = read_string fuel a term ql.
Proof.
  intros H Hle. induction Hle as [|fuel' _ IH]; [reflexivity|].
  rewrite <- IH. rewrite <- IH in H. clear IH.
  unfold read_string, bind, mem_read in *.
  destruct (read_bytes (mem ql) a (length term)) as [c|]; [|reflexivity].
  rewrite read_string_loop_more_fuel; [reflexivity|].
  destruct (read_string_loop fuel' a term (length term) [] c ql) as [q [r|e|]];
    simpl in *; congruence.
Qed.

(** X1: on every memory and for every terminator that is not empty,
    [read_string] ends: there is a bound above which the fuel does not
    matter, and the outcome is then a text or [MemoryAccessError], with [ql]
    as it was. *)
Theorem read_string_terminates ql (term : list byte) (a : Z) :
  term <> [] ->
  exists (N : nat) (r : Result pystr),
    match r with
    | Ok _ => True
    | Raise e => e = MemoryAccessError
    | OutOfFuel => False
    end
    /\ forall fuel, (N <= fuel)%nat -> read_string fuel a term ql = (ql, r).
Proof.
  intros Hterm. destruct (gmap_bounded (mem ql)) as [hi Hhi].
  set (N := S (Z.to_nat (hi - a))).
  assert (snd (read_string N a term ql) <> OutOfFuel) as Hend.
  { unfold read_string, bind, mem_read.
    destruct (read_bytes (mem ql) a (length term)) as [c|]; [|discriminate].
    pose proof (read_string_loop_terminates ql term (length term) hi) as H.
    specialize (H ltac:(destruct term; [congruence|simpl; lia]) Hhi N a [] c
                  ltac:(unfold N; lia) ltac:(unfold N; lia)).
    destruct (read_string_loop N a term (length term) [] c ql) as [q [r|e|]];
      simpl in *; congruence. }
  exists N, (snd (read_string N a term ql)). split.
  - destruct (snd (read_string N a term ql)) as [s|e|] eqn:E;
      [exact I| |congruence].
    eapply read_string_raises, E.
  - intros fuel Hfuel. rewrite (read_string_more_fuel _ _ N fuel a Hend Hfuel).
    pose proof (read_string_state N a term ql) as Hst.
    destruct (read_string N a term ql) as [q r]. simpl in *. congruence.
Qed.

Lemma read_string_terminates_witness :
  exists (N : nat) (r : Result pystr),
    match r with
    | Ok _ => True
    | Raise e => e = MemoryAccessError
    | OutOfFuel => False
    end
    /\ forall fuel, (N <= fuel)%nat ->
         read_string fuel 100 [x00] (machine 100 ["h"; "i"]%byte)
         = (machine 100 ["h"; "i"]%byte, r).
Proof.
  apply (read_string_terminates (machine 100 ["h"; "i"]%byte) [x00] 100).
  discriminate.
Defined.

(** An unterminated string runs into the end of the mapped memory. *)
Example read_string_unterminated :
  read_string 5 100 [x00] (machine 100 ["h"; "i"]%byte)
  = (machine 100 ["h"; "i"]%byte, Raise MemoryAccessError).
Proof. vm_compute. reflexivity. Qed.

(** X2: at an address that is not mapped each of the three readers raises
    [MemoryAccessError], whatever the fuel, and nothing is reported to the
    statistics. *)
Theorem readers_fail_unmapped ql (a : Z) (fuel : nat) :
  mem ql !! a = None ->
  (forall term, term <> [] ->
     read_string fuel a term ql = (ql, Raise MemoryAccessError))
  /\ read_cstring fuel a ql = (ql, Raise MemoryAccessError)
  /\ read_wstring fuel a ql = (ql, Raise MemoryAccessError).
Proof.
  intros Ha.
  assert (forall term, term <> [] ->
            read_string fuel a term ql = (ql, Raise MemoryAccessError)) as H.
  { intros term Hterm. unfold read_string, bind, mem_read.
    destruct term as [|b term]; [congruence|]. simpl. rewrite Ha. reflexivity. }
  split; [exact H|]. split.
  - rewrite read_cstring_eq, H by discriminate. reflexivity.
  - rewrite read_wstring_eq, H by discriminate. reflexivity.
Qed.

Lemma readers_fail_unmapped_witness :
  (forall term, term <> [] ->
     read_string 3 99 term (machine 100 ["h"; "i"; x00]%byte)
     = (machine 100 ["h"; "i"; x00]%byte, Raise MemoryAccessError))
  /\ read_cstring 3 99 (machine 100 ["h"; "i"; x00]%byte)
     = (machine 100 ["h"; "i"; x00]%byte, Raise MemoryAccessError)
  /\ read_wstring 3 99 (machine 100 ["h"; "i"; x00]%byte)
     = (machine 100 ["h"; "i"; x00]%byte, Raise MemoryAccessError).
Proof.
  apply (readers_fail_unmapped (machine 100 ["h"; "i"; x00]%byte) 99 3).
  vm_compute. reflexivity.
Defined.

(** X3: [read_cstring] and [read_wstring] report a string to the statistics
    exactly when they return it, and it is the string they return; a call
    that raises, or runs out of fuel, leaves [ql] as it was. *)
Theorem readers_report_what_they_return (wstring : bool) fuel (a : Z) ql :
  match snd ((if wstring then read_wstring fuel a else read_cstring fuel a) ql)
  with
  | Ok s =>
      fst ((if wstring then read_wstring fuel a else read_cstring fuel a) ql)
      = stats_log_string s ql
  | _ =>
      fst ((if wstring then read_wstring fuel a else read_cstring fuel a) ql)
      = ql
  end.
Proof.
  destruct wstring.
  - rewrite read_wstring_eq.
    destruct (snd (read_string fuel a [x00; x00] ql)); reflexivity.
  - rewrite read_cstring_eq.
    destruct (snd (read_string fuel a [x00] ql)); reflexivity.
Qed.

(** ** What the readers make of encoded text *)

(** X4: [read_cstring] undoes the UTF-8 encoder: where memory holds the
    UTF-8 bytes of a text without null character and then a zero byte, it
    returns that text, whatever its characters, and reports it. *)
Theorem read_cstring_decodes_utf8 fuel (a : Z) ql (s : pystr)
    (body : list byte) :
  encode utf_8 s = Val body ->
  Forall (fun c => c <> 0) s ->
  read_bytes (mem ql) a (length (body ++ [x00])) = Some (body ++ [x00]) ->
  (4 * length s < fuel)%nat ->
  read_cstring fuel a ql = (stats_log_string s ql, Ok s).
Proof. apply read_back_narrow. Qed.

Lemma read_cstring_decodes_utf8_witness :
  read_cstring 9 100 (machine 100 ["195"; "169"; "226"; "130"; "172"; x00]%byte)
  = (stats_log_string [233; 8364]
       (machine 100 ["195"; "169"; "226"; "130"; "172"; x00]%byte),
     Ok [233; 8364]).
Proof.
  apply (read_cstring_decodes_utf8 9 100
           (machine 100 ["195"; "169"; "226"; "130"; "172"; x00]%byte)
           [233; 8364] ["195"; "169"; "226"; "130"; "172"]%byte).
  - vm_compute. reflexivity.
  - repeat (apply Forall_cons_2; [discriminate|]). apply Forall_nil_2.
  - vm_compute. reflexivity.
  - vm_compute. lia.
Defined.

Lemma utf16le_encode_latin1 (s : pystr) :
  Forall (fun c => 1 <= c < 256) s ->
  encode_with utf16le_units s = Some (flat_map (fun c => [c; 0]) s).
Proof.
  induction 1 as [|c s Hc _ IH]; [reflexivity|].
  cbn [encode_with flat_map]. rewrite IH.
  assert (utf16le_units c = Some [c; 0]) as ->; [|reflexivity].
  unfold utf16le_units, is_surrogate.
  zbool; cbn [andb]; repeat f_equal; zdm.
Qed.

(** A byte followed by a zero byte: an ASCII byte is a character, any other
    byte is dropped, and the zero byte is a null character. *)
Lemma utf8_decode_pair (c : Z) (rest : list Z) :
  0 <= c ->
  utf8_decode_ignore (c :: 0 :: rest)
  = (if c <? 128 then [c] else []) ++ 0 :: utf8_decode_ignore rest.
Proof.
  intros Hc. cbn [utf8_decode_ignore].
  change (is_continuation 0) with false. change (0 <? 128) with true.
  cbn [negb orb]. zbool; reflexivity.
Qed.

Lemma read_wide_latin1_text (s : pystr) :
  Forall (fun c => 1 <= c < 256) s ->
  replace (utf8_decode_ignore (flat_map (fun c => [c; 0]) s)) [0] []
  = filter (fun c => c < 128) s.
Proof.
  intros H. rewrite replace_single_empty.
  induction H as [|c s Hc _ IH]; [reflexivity|].
  cbn [flat_map app]. rewrite utf8_decode_pair by lia.
  rewrite filter_app, (filter_cons _ 0).
  rewrite decide_False by (intros Hn; apply Hn; reflexivity).
  rewrite IH, (filter_cons _ c s).
  destruct (Z.ltb_spec c 128).
  - rewrite decide_True by exact H. rewrite filter_cons_True by lia.
    reflexivity.
  - rewrite decide_False by lia. reflexivity.
Qed.

(** X5: [read_wstring] reads UTF-16 text as UTF-8: where memory holds the
    UTF-16 little-endian bytes of a text of characters 1..255 and then two
    zero bytes, it returns the ASCII characters of the text and drops the
    others. *)
Theorem read_wstring_keeps_ascii_only fuel (a : Z) ql (s : pystr)
    (body : list byte) :
  Forall (fun c => 1 <= c < 256) s ->
  encode utf_16le s = Val body ->
  read_bytes (mem ql) a (length (body ++ [x00; x00]))
    = Some (body ++ [x00; x00]) ->
  (length s < fuel)%nat ->
  read_wstring fuel a ql
  = (stats_log_string (filter (fun c => c < 128) s) ql,
     Ok (filter (fun c => c < 128) s)).
Proof.
  unfold encode. intros Hs Henc Hmem Hfuel.
  rewrite (utf16le_encode_latin1 _ Hs) in Henc. injection Henc as <-.
  rewrite read_wstring_eq.
  assert (concat (map (fun c => [byte_of_Z c; x00]) s)
          = map byte_of_Z (flat_map (fun c => [c; 0]) s)) as Hcat.
  { clear. induction s as [|c s IH]; [reflexivity|].
    cbn [map concat flat_map app]. rewrite IH. reflexivity. }
  rewrite (read_string_chunks ql [x00; x00]
             (map (fun c => [byte_of_Z c; x00]) s)).
  - cbn [snd]. rewrite Hcat. unfold decode_ignore.
    rewrite map_byte_to_of_Z.
    + rewrite (read_wide_latin1_text _ Hs). reflexivity.
    + clear -Hs. induction Hs as [|c s Hc _ IH]; [constructor|].
      cbn [flat_map app]. repeat (apply Forall_cons_2; [lia|]). exact IH.
  - rewrite Forall_map. eapply Forall_impl; [exact Hs|].
    intros c Hc. cbv beta in Hc. split; [reflexivity|].
    intros [= Hx]. apply (byte_of_Z_nonzero c); [lia|exact Hx].
  - rewrite Hcat. rewrite length_app in Hmem. exact Hmem.
  - rewrite length_map. lia.
Qed.

Lemma read_wstring_keeps_ascii_only_witness :
  read_wstring 9 100
    (machine 100 ["c"; x00; "a"; x00; "f"; x00; "233"; x00; x00; x00]%byte)
  = (stats_log_string (filter (fun c => c < 128) [99; 97; 102; 233])
       (machine 100 ["c"; x00; "a"; x00; "f"; x00; "233"; x00; x00; x00]%byte),
     Ok (filter (fun c => c < 128) [99; 97; 102; 233])).
Proof.
  apply (read_wstring_keeps_ascii_only 9 100
           (machine 100 ["c"; x00; "a"; x00; "f"; x00; "233"; x00; x00; x00]%byte)
           [99; 97; 102; 233]
           ["c"; x00; "a"; x00; "f"; x00; "233"; x00]%byte).
  - repeat (apply Forall_cons_2; [lia|]). apply Forall_nil_2.
  - vm_compute. reflexivity.
  - vm_compute. reflexivity.
  - vm_compute. lia.
Defined.

(** ** GUIDs *)

Lemma byte_to_Z_range (b : byte) : 0 <= byte_to_Z b < 256.
Proof.
  unfold byte_to_Z. pose proof (Byte.to_N_bounded b). lia.
Qed.

Lemma byte_of_to_Z (b : byte) : byte_of_Z (byte_to_Z b) = b.
Proof.
  unfold byte_of_Z, byte_to_Z. rewrite N2Z.id, Byte.of_to_N. reflexivity.
Qed.

Lemma le_bytes_value (bs : list byte) : le_bytes (length bs) (le_value bs) = bs.
Proof.
  induction bs as [|b bs IH]; [reflexivity|].
  cbn [length le_bytes le_value fold_right].
  pose proof (byte_to_Z_range b) as Hb.
  fold (le_value bs).
  replace ((byte_to_Z b + 256 * le_value bs) mod 256) with (byte_to_Z b) by zdm.
  replace ((byte_to_Z b + 256 * le_value bs) / 256) with (le_value bs) by zdm.
  rewrite byte_of_to_Z, IH. reflexivity.
Qed.

Lemma le_value_range (bs : list byte) :
  0 <= le_value bs < 256 ^ Z.of_nat (length bs).
Proof.
  induction bs as [|b bs IH]; [simpl; lia|].
  cbn [length le_value fold_right]. fold (le_value bs).
  pose proof (byte_to_Z_range b) as Hb.
  rewrite Nat2Z.inj_succ, Z.pow_succ_r by lia. lia.
Qed.

Lemma swap_fields_involutive (b : list byte) :
  length b = 16%nat -> swap_fields (swap_fields b) = b.
Proof.
  intros H. do 16 (destruct b as [|? b]; [discriminate|]).
  destruct b; [reflexivity|discriminate].
Qed.

Lemma swap_fields_length (b : list byte) :
  length b = 16%nat -> length (swap_fields b) = 16%nat.
Proof.
  intros H. do 16 (destruct b as [|? b]; [discriminate|]).
  destruct b; [reflexivity|discriminate].
Qed.

(** X6: [read_guid] reads the sixteen bytes at the address and nothing
    else: it fails with [MemoryAccessError] when one of them is not mapped,
    and otherwise returns the GUID whose [bytes_le] are these bytes; its
    first three fields are the little-endian values of bytes 0..3, 4..5 and
    6..7, the last eight bytes are taken in order. [ql] stays as it was. *)
Theorem read_guid_bytes (a : Z) ql :
  match read_bytes (mem ql) a 16 with
  | Some b =>
      exists u,
        read_guid a ql = (ql, Ok u)
        /\ UUID_bytes_le u = b
        /\ uuid_int u
           = le_value (take 4 b) * 2 ^ 96
             + le_value (take 2 (drop 4 b)) * 2 ^ 80
             + le_value (take 2 (drop 6 b)) * 2 ^ 64
             + int_from_bytes (drop 8 b)
        /\ 0 <= uuid_int u < 2 ^ 128
  | None => read_guid a ql = (ql, Raise MemoryAccessError)
  end.
Proof.
  unfold read_guid, bind, mem_read.
  destruct (read_bytes (mem ql) a 16) as [b|] eqn:E; [|reflexivity].
  pose proof (read_bytes_length _ _ _ _ E) as Hlen.
  unfold lift, UUID_of_bytes_le. rewrite Hlen. cbn [Nat.eqb of_py].
  eexists. split; [reflexivity|]. cbn [uuid_int]. split; [|split].
  - unfold UUID_bytes_le, int_to_bytes, int_from_bytes. cbn [uuid_int].
    replace 16%nat with (length (rev (swap_fields b))) at 1
      by (rewrite length_rev; apply swap_fields_length, Hlen).
    rewrite le_bytes_value, rev_involutive.
    apply swap_fields_involutive, Hlen.
  - do 16 (destruct b as [|? b]; [discriminate|]).
    destruct b; [|discriminate].
    unfold int_from_bytes.
    cbn [swap_fields take drop rev app le_value fold_right]. lia.
  - unfold int_from_bytes.
    pose proof (le_value_range (rev (swap_fields b))) as H.
    rewrite length_rev, swap_fields_length in H by exact Hlen.
    change (256 ^ Z.of_nat 16) with (2 ^ 128) in H. exact H.
Qed.

Example read_guid_example :
  read_guid 100
    (machine 100 ["001"; "002"; "003"; "004"; "005"; "006"; "007"; "008";
                  "009"; "010"; "011"; "012"; "013"; "014"; "015"; "016"]%byte)
  = (machine 100 ["001"; "002"; "003"; "004"; "005"; "006"; "007"; "008";
                  "009"; "010"; "011"; "012"; "013"; "014"; "015"; "016"]%byte,
     Ok (mkUUID 0x0403020106050807090a0b0c0d0e0f10)).
Proof. vm_compute. reflexivity. Qed.

(** ** [stringify] *)

Section StringifyFacts.

Variable isprintable : Z -> bool.

Lemma slice_1_m1_quoted (q q' : Z) (body : pystr) :
  slice_1_m1 ([q] ++ body ++ [q']) = body.
Proof.
  unfold slice_1_m1. cbn [app length drop]. rewrite length_app. cbn [length].
  replace (S (length body + 1) - 2)%nat with (length body) by lia.
  apply take_app_length.
Qed.

(** [stringify] puts the escaped text of [repr] between double quotes. *)
Lemma stringify_eq (s : pystr) :
  stringify isprintable s
  = [34]
    ++ flat_map (repr_char isprintable
                   (if existsb (fun c => c =? 39) s
                       && negb (existsb (fun c => c =? 34) s)
                    then 34 else 39)) s
    ++ [34].
Proof. unfold stringify, py_repr. rewrite slice_1_m1_quoted. reflexivity. Qed.

Lemma digit_char_printable (d : Z) :
  0 <= d < 16 -> printable isprintable (digit_char false d).
Proof. intros Hd. left. unfold digit_char. destruct (Z.ltb_spec d 10); lia. Qed.

Lemma hex_fixed_printable (n : nat) (z : Z) :
  Forall (printable isprintable) (hex_fixed n z).
Proof.
  unfold hex_fixed. apply Forall_map, Forall_forall. intros i _.
  apply digit_char_printable. apply Z.mod_pos_bound. lia.
Qed.

Lemma repr_char_printable (quote ch : Z) :
  quote = 34 \/ quote = 39 ->
  Forall (printable isprintable) (repr_char isprintable quote ch).
Proof.
  intros Hq. unfold repr_char.
  assert (printable isprintable 92) as Hbs by (left; lia).
  assert (forall c rest,
             32 <= c < 127 -> Forall (printable isprintable) rest ->
             Forall (printable isprintable) ([92; c] ++ rest)) as Hesc.
  { intros c rest Hc Hrest. cbn [app].
    apply Forall_cons_2; [exact Hbs|].
    apply Forall_cons_2; [left; exact Hc|exact Hrest]. }
  destruct ((ch =? quote) || (ch =? 92)) eqn:E1.
  { apply (Hesc ch []); [|apply Forall_nil_2].
    apply orb_true_iff in E1 as [H|H]; apply Z.eqb_eq in H; lia. }
  destruct (ch =? 9).
  { apply (Hesc _ []); [change (chr "t") with 116; lia|apply Forall_nil_2]. }
  destruct (ch =? 10).
  { apply (Hesc _ []); [change (chr "n") with 110; lia|apply Forall_nil_2]. }
  destruct (ch =? 13).
  { apply (Hesc _ []); [change (chr "r") with 114; lia|apply Forall_nil_2]. }
  destruct ((ch <? 32) || (ch =? 127)) eqn:E2.
  { apply Hesc; [change (chr "x") with 120; lia|apply hex_fixed_printable]. }
  apply orb_false_iff in E2 as [E2 E3].
  apply Z.ltb_ge in E2. apply Z.eqb_neq in E3.
  destruct (Z.ltb_spec ch 127).
  { apply Forall_cons_2; [left; lia|apply Forall_nil_2]. }
  destruct (isprintable ch) eqn:E4.
  { apply Forall_cons_2; [right; split; [lia|exact E4]|apply Forall_nil_2]. }
  destruct (ch <=? 255).
  { apply Hesc; [change (chr "x") with 120; lia|apply hex_fixed_printable]. }
  destruct (ch <=? 65535).
  { apply Hesc; [change (chr "u") with 117; lia|apply hex_fixed_printable]. }
  apply Hesc; [change (chr "U") with 85; lia|apply hex_fixed_printable].
Qed.

(** X7: the text [stringify] returns begins and ends with a double quote,
    and between them holds no control character: every character there is
    printable ASCII or a character the database calls printable. *)
Theorem stringify_quoted_printable (s : pystr) :
  exists body,
    stringify isprintable s = [34] ++ body ++ [34]
    /\ Forall (printable isprintable) body.
Proof.
  rewrite stringify_eq. eexists. split; [reflexivity|].
  apply Forall_flat_map, Forall_forall. intros c _.
  apply repr_char_printable.
  destruct (_ && _); [left|right]; reflexivity.
Qed.

Lemma existsb_eqb_false (q : Z) (s : pystr) :
  existsb (fun c => c =? q) s = false <-> q ∉ s.
Proof.
  induction s as [|c s IH]; cbn [existsb].
  - split; [intros _; apply not_elem_of_nil|reflexivity].
  - rewrite orb_false_iff, IH, not_elem_of_cons, Z.eqb_neq. intuition congruence.
Qed.

Lemma repr_char_plain (quote c : Z) :
  plain_char isprintable c -> c <> quote ->
  repr_char isprintable quote c = [c].
Proof.
  intros [[Hc|[Hc Hp]] Hbs] Hq; unfold repr_char.
  - destruct (Z.eqb_spec c quote); [congruence|].
    destruct (Z.eqb_spec c 92); [congruence|]. cbn [orb].
    zbool; cbn [orb]; reflexivity.
  - destruct (Z.eqb_spec c quote); [congruence|].
    destruct (Z.eqb_spec c 92); [congruence|]. cbn [orb].
    zbool; cbn [orb]; rewrite ?Hp; reflexivity.
Qed.

(** X8: a text of printable characters without backslash, in which single
    and double quotes do not both occur, is returned as it is between
    double quotes; a double quote inside the text is not escaped. *)
Theorem stringify_plain_text (s : pystr) :
  Forall (plain_char isprintable) s ->
  ~ (39 ∈ s /\ 34 ∈ s) ->
  stringify isprintable s = [34] ++ s ++ [34].
Proof.
  intros Hplain Hq. rewrite stringify_eq. do 2 f_equal.
  assert (forall quote, quote ∉ s ->
            flat_map (repr_char isprintable quote) s = s) as Hflat.
  { clear Hq. intros quote.
    induction Hplain as [|c s Hc _ IH]; intros Hn; [reflexivity|].
    apply not_elem_of_cons in Hn as [Hne Hn].
    cbn [flat_map]. rewrite repr_char_plain by (auto; congruence).
    rewrite (IH Hn). reflexivity. }
  apply Hflat.
  destruct (existsb (fun c => c =? 39) s) eqn:E39;
    destruct (existsb (fun c => c =? 34) s) eqn:E34; cbn [andb negb].
  - exfalso. apply Hq. split.
    + destruct (decide (39 ∈ s)) as [H|H]; [exact H|].
      apply existsb_eqb_false in H. congruence.
    + destruct (decide (34 ∈ s)) as [H|H]; [exact H|].
      apply existsb_eqb_false in H. congruence.
  - apply existsb_eqb_false, E34.
  - apply existsb_eqb_false, E39.
  - apply existsb_eqb_false, E39.
Qed.

End StringifyFacts.

Lemma stringify_plain_text_witness :
  stringify (fun _ => false) [97; 34; 98] = [34] ++ [97; 34; 98] ++ [34].
Proof.
  apply (stringify_plain_text (fun _ => false) [97; 34; 98]).
  - repeat (apply Forall_cons_2; [split; [left; lia|lia]|]). apply Forall_nil_2.
  - intros [H _]. revert H. not_in_list.
Defined.

(** Both kinds of quote: the single quotes are escaped, the double quotes
    are not; a newline is written as backslash and [n]. *)
Example stringify_example :
  stringify (fun _ => false) [97; 34; 98; 39; 99; 10]
  = [34; 97; 34; 98; 92; 39; 99; 92; 110; 34].
Proof. reflexivity. Qed.

(** ** Numbers as text *)

Lemma digit_value_char (upper : bool) (d : Z) :
  0 <= d < 16 -> digit_value (digit_char upper d) = d.
Proof.
  intros Hd. unfold digit_value, digit_char.
  destruct (Z.ltb_spec d 10); destruct upper; zbool; lia.
Qed.

(** Reading the digits back gives the number, when the fuel reaches its
    most significant digit. *)
Lemma digits_loop_value (upper : bool) (base : Z) :
  2 <= base <= 16 ->
  forall fuel n acc,
    0 <= n < base ^ Z.of_nat fuel ->
    fold_left (fun a c => a * base + digit_value c)
      (digits_loop upper base fuel n acc) 0
    = fold_left (fun a c => a * base + digit_value c) acc n.
Proof.
  intros Hb. induction fuel as [|fuel IH]; intros n acc Hn.
  - simpl in *. f_equal. lia.
  - rewrite Nat2Z.inj_succ, Z.pow_succ_r in Hn by lia.
    cbn [digits_loop].
    assert (0 <= n mod base < 16) as Hm by (pose proof (Z.mod_pos_bound n base); lia).
    assert (0 <= n / base < base ^ Z.of_nat fuel) as Hq.
    { split; [apply Z.div_pos; lia|apply Z.div_lt_upper_bound; lia]. }
    assert (n = base * (n / base) + n mod base) as Hdiv
      by (apply Z.div_mod; lia).
    destruct (Z.eqb_spec (n / base) 0) as [H0|H0].
    + cbn [fold_left]. rewrite digit_value_char by exact Hm. f_equal. lia.
    + rewrite IH by exact Hq. cbn [fold_left].
      rewrite digit_value_char by exact Hm. f_equal. lia.
Qed.

Lemma digits_value_digits (upper : bool) (base n : Z) :
  2 <= base <= 16 -> 0 <= n ->
  digits_value base (digits upper base n) = n.
Proof.
  intros Hb Hn. unfold digits_value, digits.
  rewrite digits_loop_value; [reflexivity|exact Hb|].
  split; [exact Hn|].
  rewrite Nat2Z.inj_succ, Z2Nat.id by apply Z.log2_nonneg.
  destruct (Z.eq_dec n 0) as [->|Hne]; [simpl; lia|].
  pose proof (Z.log2_spec n ltac:(lia)) as [_ Hlt].
  eapply Z.lt_le_trans; [exact Hlt|].
  apply Z.pow_le_mono_l. lia.
Qed.

Lemma str_of_nat_inj (i j : nat) :
  str_of_int (Z.of_nat i) = str_of_int (Z.of_nat j) -> i = j.
Proof.
  unfold str_of_int, sign_of.
  destruct (Z.ltb_spec (Z.of_nat i) 0); [lia|].
  destruct (Z.ltb_spec (Z.of_nat j) 0); [lia|].
  cbn [app]. rewrite !Z.abs_eq by lia. intros Heq.
  apply (f_equal (digits_value 10)) in Heq.
  rewrite !digits_value_digits in Heq by lia. lia.
Qed.

Lemma ellipsis_name_inj (i j : nat) :
  ellipsis_name i = ellipsis_name j -> i = j.
Proof.
  unfold ellipsis_name. intros H. apply app_inv_head in H.
  apply str_of_nat_inj, H.
Qed.

Lemma ellipsis_name_prefix (i : nat) :
  startswith (ellipsis_name i) ELLIPSIS_PREF = true.
Proof. apply startswith_app. Qed.

(** ** [update_ellipsis] *)

Lemma update_from_other {V} (args : list V) (i : nat) (params : gmap pystr V)
    (k : pystr) :
  (forall j, (j < length args)%nat -> k <> ellipsis_name (i + j)) ->
  update_from i args params !! k = params !! k.
Proof.
  revert i params. induction args as [|a args IH]; intros i params H.
  - reflexivity.
  - cbn [update_from]. rewrite IH.
    + apply lookup_insert_ne. specialize (H 0%nat ltac:(simpl; lia)).
      rewrite Nat.add_0_r in H. congruence.
    + intros j Hj. specialize (H (S j) ltac:(simpl; lia)).
      replace (S i + j)%nat with (i + S j)%nat by lia. exact H.
Qed.

Lemma update_from_lookup {V} (args : list V) (i : nat) (params : gmap pystr V)
    (j : nat) (a : V) :
  args !! j = Some a ->
  update_from i args params !! ellipsis_name (i + j) = Some a.
Proof.
  revert i params j. induction args as [|b args IH]; intros i params j Hj.
  - discriminate.
  - cbn [update_from]. destruct j as [|j].
    + injection Hj as ->. rewrite Nat.add_0_r.
      rewrite update_from_other; [apply lookup_insert_eq|].
      intros j _ Heq. apply ellipsis_name_inj in Heq. lia.
    + replace (i + S j)%nat with (S i + j)%nat by lia. apply IH, Hj.
Qed.

(** X9: after [update_ellipsis] the dict holds every extra argument under
    its own synthetic name, the ellipsis prefix followed by the decimal
    index, so no argument overwrites another; every key that does not start
    with the prefix keeps its value. *)
Theorem update_ellipsis_lookup {V} (params : gmap pystr V) (args : list V) :
  (forall i a, args !! i = Some a ->
     update_ellipsis params args !! ellipsis_name i = Some a)
  /\ (forall k, startswith k ELLIPSIS_PREF = false ->
        update_ellipsis params args !! k = params !! k)
  /\ (forall i j, ellipsis_name i = ellipsis_name j -> i = j).
Proof.
  split; [|split].
  - intros i a H. apply (update_from_lookup args 0 params i a H).
  - intros k Hk. apply update_from_other. intros j _ ->.
    rewrite ellipsis_name_prefix in Hk. discriminate.
  - exact ellipsis_name_inj.
Qed.

Lemma update_ellipsis_lookup_witness :
  update_ellipsis (V:=Z) {[ py "dst" := 1 ]} [10; 20] !! ellipsis_name 1
  = Some 20.
Proof.
  apply (proj1 (update_ellipsis_lookup (V:=Z) {[ py "dst" := 1 ]} [10; 20])).
  reflexivity.
Defined.

Example update_ellipsis_example :
  update_ellipsis (V:=Z) {[ py "dst" := 1 ]} [10; 20]
  = {[ py "dst" := 1; py "__qlva_0" := 10; py "__qlva_1" := 20 ]}.
Proof. vm_compute. reflexivity. Qed.

(** ** The tracer and the synthetic names *)

Lemma assign_arg_synthetic (pargs : list (pystr * pystr)) :
  Forall (fun p => startswith (fst p) ELLIPSIS_PREF = true) pargs ->
  map (fun '(name, value) => __assign_arg name value) pargs = map snd pargs.
Proof.
  induction 1 as [|[name value] pargs Hp _ IH]; [reflexivity|].
  cbn [map fst snd] in *. rewrite IH. unfold __assign_arg. rewrite Hp.
  reflexivity.
Qed.

(** X10: arguments named by [update_ellipsis] are shown by [print_function]
    without their names: below the debug threshold the line for the values
    [vs] under the synthetic names of their indices is the function name
    and the values joined by [", "] in parentheses, with the return value
    and the passthru mark as for any call. *)
Theorem print_function_hides_synthetic_names (DEBUG address : Z)
    (fname : pystr) (vs : list pystr) (ret_ : retval) (passthru : bool) ql :
  verbose ql < DEBUG ->
  print_function DEBUG address fname
    (imap (fun i v => (ellipsis_name i, v)) vs) ret_ passthru ql
  = (log_emit LogInfo
       ((if startswith fname (py "hook_") then drop 5 fname else fname)
        ++ py "(" ++ join (py ", ") vs ++ py ")"
        ++ match ret_ with
           | RetInt z => py " = " ++ format_hash_x z
           | RetStr s => py " = " ++ s
           | RetNone => []
           end
        ++ (if passthru then py " (PASSTHRU)" else [])) ql,
     Ok tt).
Proof.
  intros Hv. unfold print_function, bind, gets, ret, modify.
  destruct (Z.leb_spec DEBUG (verbose ql)) as [Hd|_]; [lia|].
  rewrite assign_arg_synthetic.
  - assert (map snd (imap (fun i v => (ellipsis_name i, v)) vs) = vs) as ->.
    { generalize ellipsis_name. induction vs as [|v vs IH]; intros f;
        [reflexivity|]. cbn [imap map snd]. f_equal. apply IH. }
    destruct ret_; cbn [app]; rewrite <- ?app_assoc; reflexivity.
  - assert (forall f : nat -> pystr,
               (forall i, startswith (f i) ELLIPSIS_PREF = true) ->
               Forall (fun p => startswith (fst p) ELLIPSIS_PREF = true)
                 (imap (fun i v => (f i, v)) vs)) as H.
    { induction vs as [|v vs IH]; intros f Hf; [constructor|].
      cbn [imap]. apply Forall_cons_2; [apply Hf|].
      apply (IH (fun i => f (S i))). intros i. apply Hf. }
    apply H, ellipsis_name_prefix.
Qed.

Lemma print_function_hides_synthetic_names_witness :
  print_function 4 0 (py "hook_printf")
    (imap (fun i v => (ellipsis_name i, v)) [py "0x10"; py "0x20"])
    RetNone false (machine 0 [])
  = (log_emit LogInfo
       ((if startswith (py "hook_printf") (py "hook_")
         then drop 5 (py "hook_printf") else py "hook_printf")
        ++ py "(" ++ join (py ", ") [py "0x10"; py "0x20"] ++ py ")"
        ++ [] ++ []) (machine 0 []),
     Ok tt).
Proof.
  apply (print_function_hides_synthetic_names 4 0 (py "hook_printf")
           [py "0x10"; py "0x20"] RetNone false (machine 0 [])).
  vm_compute. reflexivity.
Defined.

(** ** What the interpreter leaves alone *)

Lemma only_stats_differ_refl ql : only_stats_differ ql ql.
Proof.
  repeat split. exists []. rewrite app_nil_r. reflexivity.
Qed.

Lemma only_stats_differ_log ql ql' (s : pystr) :
  only_stats_differ (stats_log_string s ql) ql' -> only_stats_differ ql ql'.
Proof.
  intros (H1 & H2 & H3 & H4 & H5 & H6 & reported & H7).
  repeat split; try assumption.
  exists (s :: reported). rewrite H7. cbn [stats stats_log_string].
  rewrite <- app_assoc. reflexivity.
Qed.

Section ResolveFrame.

Variables (fuel : nat) (wstring : bool).

Local Abbreviation resolve_body :=
  (fun (i : nat) (f : pystr) =>
     if startswith f (py "s") then
       a <- args_getitem i ;;
       s <- read_string_at fuel wstring a ;;
       args_setitem i (PStr s)
     else ret tt).

(** However the pass ends, it has changed nothing but the statistics and
    the slots of segments that begin with [s], which then hold strings. *)
Lemma resolve_loop_frame (segs : list pystr) (i : nat) ql (args : list pyval)
    ql' (args' : list pyval) (r : Result unit) :
  for_enumerate i segs resolve_body (ql, args) = ((ql', args'), r) ->
  only_stats_differ ql ql'
  /\ length args' = length args
  /\ forall n,
       args' !! n = args !! n
       \/ exists j f s,
            n = (i + j)%nat /\ segs !! j = Some f
            /\ startswith f (py "s") = true /\ args' !! n = Some (PStr s).
Proof.
  revert i ql args. induction segs as [|f segs IH]; intros i ql args H.
  - injection H as <- <- _.
    split; [apply only_stats_differ_refl|]. split; [reflexivity|]. auto.
  - rewrite for_enumerate_cons, resolve_body_eq in H.
    assert (forall ql0,
               for_enumerate (S i) segs resolve_body (ql0, args)
                 = ((ql', args'), r) ->
               only_stats_differ ql0 ql'
               /\ length args' = length args
               /\ forall n,
                    args' !! n = args !! n
                    \/ exists j g s,
                         n = (i + j)%nat /\ (f :: segs) !! j = Some g
                         /\ startswith g (py "s") = true
                         /\ args' !! n = Some (PStr s)) as Hskip.
    { intros ql0 H0. destruct (IH _ _ _ H0) as (Hst & Hlen & Hn).
      split; [exact Hst|]. split; [exact Hlen|]. intros n.
      destruct (Hn n) as [Heq|(j & g & s & -> & Hg & Hs & Hr)]; [left; exact Heq|].
      right. exists (S j), g, s. repeat split; try assumption. lia. }
    destruct (startswith f (py "s")) eqn:Ef; [|apply Hskip, H].
    destruct (args !! i) as [[a|s]|] eqn:Ea.
    + destruct (decoded_at fuel wstring ql a) as [s|e|].
      * destruct (IH _ _ _ H) as (Hst & Hlen & Hn).
        split; [eapply only_stats_differ_log, Hst|].
        split; [rewrite Hlen; apply length_insert|]. intros n.
        destruct (Hn n) as [Heq|(j & g & s' & -> & Hg & Hs & Hr)].
        -- destruct (decide (n = i)) as [->|Hne].
           ++ right. exists 0%nat, f, s. rewrite Nat.add_0_r.
              repeat split; try assumption.
              rewrite Heq. apply list_lookup_insert_eq.
              eapply lookup_lt_Some, Ea.
           ++ left. rewrite Heq. apply list_lookup_insert_ne. congruence.
        -- right. exists (S j), g, s'. repeat split; try assumption. lia.
      * injection H as <- <- _.
        split; [apply only_stats_differ_refl|]. split; [reflexivity|]. auto.
      * injection H as <- <- _.
        split; [apply only_stats_differ_refl|]. split; [reflexivity|]. auto.
    + injection H as <- <- _.
      split; [apply only_stats_differ_refl|]. split; [reflexivity|]. auto.
    + injection H as <- <- _.
      split; [apply only_stats_differ_refl|]. split; [reflexivity|]. auto.
Qed.

End ResolveFrame.

Lemma common_printf_changes host fuel (format : pystr) wstring ql
    (args : list pyval) ql' (args' : list pyval) (r : Result pystr) :
  __common_printf host fuel format wstring (ql, args) = ((ql', args'), r) ->
  only_stats_differ ql ql'
  /\ length args' = length args
  /\ forall i,
       args' !! i = args !! i
       \/ exists f s,
            segments format !! i = Some f
            /\ startswith f (py "s") = true /\ args' !! i = Some (PStr s).
Proof.
  rewrite common_printf_eq. unfold resolve_strings.
  destruct (for_enumerate 0 (segments format) _ (ql, args))
    as [[ql1 args1] r1] eqn:E.
  intros H.
  assert (ql1 = ql' /\ args1 = args') as [-> ->]
    by (destruct r1; injection H as <- <- _; auto).
  destruct (resolve_loop_frame _ _ _ _ _ _ _ _ _ E) as (Hst & Hlen & Hn).
  split; [exact Hst|]. split; [exact Hlen|]. intros i.
  destruct (Hn i) as [Heq|(j & f & s & -> & Hf & Hs & Hr)]; [left; exact Heq|].
  right. exists f, s. auto.
Qed.

(** X11: however [__common_printf] ends, with a text, an exception or out
    of fuel, it has written no memory, no output and no log line, the
    argument list has kept its length, and a slot has changed only if its
    segment begins with [s], and then to a string. *)
Theorem common_printf_frame host fuel (format : pystr) wstring ql
    (args : list pyval) ql' (args' : list pyval) (r : Result pystr) :
  __common_printf host fuel format wstring (ql, args) = ((ql', args'), r) ->
  only_stats_differ ql ql'
  /\ length args' = length args
  /\ forall i,
       args' !! i = args !! i
       \/ exists f s,
            segments format !! i = Some f
            /\ startswith f (py "s") = true /\ args' !! i = Some (PStr s).
Proof.
  apply common_printf_changes.
Qed.

Lemma common_printf_frame_witness :
  only_stats_differ (machine 100 ["h"; "i"; x00]%byte)
    (stats_log_string (py "hi") (machine 100 ["h"; "i"; x00]%byte))
  /\ length [PStr (py "hi"); PInt 7] = length [PInt 100; PInt 7]
  /\ forall i,
       [PStr (py "hi"); PInt 7] !! i = [PInt 100; PInt 7] !! i
       \/ exists f s,
            segments (py "%s %q") !! i = Some f
            /\ startswith f (py "s") = true
            /\ [PStr (py "hi"); PInt 7] !! i = Some (PStr s).
Proof.
  apply (common_printf_frame host_plain 3 (py "%s %q") false
           (machine 100 ["h"; "i"; x00]%byte) [PInt 100; PInt 7]
           (stats_log_string (py "hi") (machine 100 ["h"; "i"; x00]%byte))
           [PStr (py "hi"); PInt 7] (Raise ValueError)).
  vm_compute. reflexivity.
Defined.

Lemma printf_eq host fuel (format : pystr) wstring (st : Qiling * list pyval) :
  printf host fuel format wstring st
  = match __common_printf host fuel format wstring st with
    | ((ql1, args1), Ok out) =>
        match encode utf_8 out with
        | Val data =>
            ((stdout_write data ql1, args1), Ok (Z.of_nat (length out)))
        | Exn e => ((ql1, args1), Raise e)
        end
    | (st1, Raise e) => (st1, Raise e)
    | (st1, OutOfFuel) => (st1, OutOfFuel)
    end.
Proof.
  unfold printf. unfold bind at 1.
  destruct (__common_printf _ _ _ _ st) as [[ql1 args1] [out|e|]];
    try reflexivity.
  unfold bind at 1. unfold lift at 1.
  destruct (encode utf_8 out) as [data|e]; reflexivity.
Qed.

(** X12: [printf] never writes guest memory. When it returns, it has
    appended to stdout the UTF-8 bytes of the interpreted text, also for a
    wide format, and returns the number of characters of the text; when it
    raises, stdout is as it was. *)
Theorem printf_writes_stdout_only host fuel (format : pystr) wstring ql
    (args : list pyval) ql' (args' : list pyval) (r : Result Z) :
  printf host fuel format wstring (ql, args) = ((ql', args'), r) ->
  mem ql' = mem ql
  /\ match r with
     | Ok n =>
         exists out data,
           snd (__common_printf host fuel format wstring (ql, args)) = Ok out
           /\ encode utf_8 out = Val data
           /\ stdout ql' = stdout ql ++ data
           /\ n = Z.of_nat (length out)
     | _ => stdout ql' = stdout ql
     end.
Proof.
  rewrite printf_eq.
  destruct (__common_printf host fuel format wstring (ql, args))
    as [[ql1 args1] r1] eqn:E.
  destruct (common_printf_changes _ _ _ _ _ _ _ _ _ E)
    as ((_ & _ & _ & Hmem & Hout & _) & _).
  destruct r1 as [out|e|].
  - destruct (encode utf_8 out) as [data|e] eqn:Henc.
    + intros [= <- <- <-]. split; [exact Hmem|].
      exists out, data. cbn [stdout stdout_write]. rewrite Hout. auto.
    + intros [= <- <- <-]. auto.
  - intros [= <- <- <-]. auto.
  - intros [= <- <- <-]. auto.
Qed.

Lemma printf_writes_stdout_only_witness :
  mem (stdout_write ["h"; "i"]%byte
         (stats_log_string (py "hi")
            (machine 100 ["h"; x00; "i"; x00; x00; x00]%byte)))
  = mem (machine 100 ["h"; x00; "i"; x00; x00; x00]%byte)
  /\ exists out data,
       snd (__common_printf host_plain 4 (py "%s") true
              (machine 100 ["h"; x00; "i"; x00; x00; x00]%byte, [PInt 100]))
       = Ok out
       /\ encode utf_8 out = Val data
       /\ stdout (stdout_write ["h"; "i"]%byte
                    (stats_log_string (py "hi")
                       (machine 100 ["h"; x00; "i"; x00; x00; x00]%byte)))
          = stdout (machine 100 ["h"; x00; "i"; x00; x00; x00]%byte) ++ data
       /\ 2 = Z.of_nat (length out).
Proof.
  apply (printf_writes_stdout_only host_plain 4 (py "%s") true
           (machine 100 ["h"; x00; "i"; x00; x00; x00]%byte) [PInt 100]
           _ [PStr (py "hi")] (Ok 2)).
  vm_compute. reflexivity.
Defined.

Lemma encode_with_surrogate units (s : pystr) :
  (forall c, is_surrogate c = true -> units c = None) ->
  Exists (fun c => is_surrogate c = true) s ->
  encode_with units s = None.
Proof.
  intros Hu. induction 1 as [c s Hc|c s _ IH]; cbn [encode_with].
  - rewrite (Hu c Hc). reflexivity.
  - rewrite IH. destruct (units c); reflexivity.
Qed.

Lemma encode_surrogate (enc : encoding) (s : pystr) :
  Exists (fun c => is_surrogate c = true) s ->
  encode enc s = Exn UnicodeEncodeError.
Proof.
  intros H. unfold encode. rewrite encode_with_surrogate; [reflexivity| |exact H].
  intros c Hc. unfold is_surrogate in Hc.
  apply andb_true_iff in Hc as [H1 H2].
  apply Z.leb_le in H1. apply Z.leb_le in H2.
  destruct enc; unfold utf8_units, utf16le_units, is_surrogate;
    zbool; reflexivity.
Qed.

(** X13: a text with a surrogate character cannot be encoded: [sprintf]
    and [printf] then raise [UnicodeEncodeError] and write neither memory
    nor stdout, while the argument list stays as the interpreter left it. *)
Theorem sinks_refuse_surrogates host fuel (buff : Z) (format : pystr) wstring
    ql (args : list pyval) ql1 (args1 : list pyval) (out : pystr) :
  __common_printf host fuel format wstring (ql, args)
    = ((ql1, args1), Ok out) ->
  Exists (fun c => is_surrogate c = true) out ->
  sprintf host fuel buff format wstring (ql, args)
    = ((ql1, args1), Raise UnicodeEncodeError)
  /\ printf host fuel format wstring (ql, args)
     = ((ql1, args1), Raise UnicodeEncodeError).
Proof.
  intros Hout Hs. rewrite sprintf_eq, printf_eq, Hout.
  rewrite !encode_surrogate; [auto|exact Hs|].
  apply Exists_app. left. exact Hs.
Qed.

Lemma sinks_refuse_surrogates_witness :
  sprintf host_plain 0 100 (py "%c") true
    (machine 100 ["?"; "?"; "?"; "?"]%byte, [PInt 0xD800])
  = ((machine 100 ["?"; "?"; "?"; "?"]%byte, [PInt 0xD800]),
     Raise UnicodeEncodeError)
  /\ printf host_plain 0 (py "%c") true
       (machine 100 ["?"; "?"; "?"; "?"]%byte, [PInt 0xD800])
     = ((machine 100 ["?"; "?"; "?"; "?"]%byte, [PInt 0xD800]),
        Raise UnicodeEncodeError).
Proof.
  apply (sinks_refuse_surrogates host_plain 0 100 (py "%c") true
           (machine 100 ["?"; "?"; "?"; "?"]%byte) [PInt 0xD800]
           (machine 100 ["?"; "?"; "?"; "?"]%byte) [PInt 0xD800] [0xD800]).
  - vm_compute. reflexivity.
  - apply Exists_cons_hd. reflexivity.
Defined.

(** ** The marshaller feeds the interpreter *)

(** X14: the list [va_list] returns for a format has a slot for every
    segment of that format, so the resolution pass over it, on any state,
    does not end in [IndexError]. *)
Theorem va_list_fits_resolution (read_ptr : Qiling -> Z -> PyResult Z)
    (format : pystr) (ptr : Z) ql ql0 (args : list pyval) :
  va_list read_ptr format ptr ql = (ql0, Ok args) ->
  length args = length (segments format)
  /\ forall fuel wstring ql1,
       snd (resolve_strings fuel wstring (segments format) (ql1, args))
       <> Raise IndexError.
Proof.
  intros H.
  assert (length args = count format (py "%")) as Hlen.
  { unfold va_list in H.
    destruct (list_comprehension_reads read_ptr
                (fun i => ptr + Z.of_nat i * arch_pointersize ql) ql
                (seq 0 (count format (py "%")))) as [_ Hl].
    specialize (Hl args). rewrite H in Hl.
    destruct Hl as [Hl _]. specialize (Hl eq_refl).
    apply Forall2_length in Hl. rewrite length_seq in Hl. congruence. }
  split; [rewrite segments_length; exact Hlen|].
  intros fuel wstring ql1. apply resolve_loop_in_bounds.
  rewrite segments_length. lia.
Qed.

Lemma va_list_fits_resolution_witness :
  length [PInt 1; PInt 2] = length (segments (py "%d%s"))
  /\ forall fuel wstring ql1,
       snd (resolve_strings fuel wstring (segments (py "%d%s"))
              (ql1, [PInt 1; PInt 2]))
       <> Raise IndexError.
Proof.
  apply (va_list_fits_resolution read_ptr_le (py "%d%s") 100
           (machine 100 ["001"; x00; x00; x00; "002"; x00; x00; x00]%byte)
           (machine 100 ["001"; x00; x00; x00; "002"; x00; x00; x00]%byte)
           [PInt 1; PInt 2]).
  vm_compute. reflexivity.
Defined.

(** ** Formats without markers, and the literal percent sign *)

Lemma contains_no_head (c : Z) (q s : pystr) :
  c ∉ s -> contains s (c :: q) = false.
Proof.
  induction s as [|d s IH]; intros H; [reflexivity|].
  apply not_elem_of_cons in H as [Hd Hs].
  cbn [contains startswith]. rewrite IH by exact Hs.
  destruct (Z.eqb_spec c d); [congruence|reflexivity].
Qed.

Lemma split_from_no_sep (c : Z) (s : pystr) :
  c ∉ s -> split_from [c] 0 s = [s].
Proof.
  induction s as [|d s IH]; intros H; [reflexivity|].
  apply not_elem_of_cons in H as [Hd Hs].
  cbn [split_from startswith]. rewrite IH by exact Hs.
  destruct (Z.eqb_spec c d); [congruence|reflexivity].
Qed.

Lemma fmt_run_text host (fmt : pystr) (args : list pyval) (out : pystr) :
  37 ∉ fmt ->
  fmt_run host SText args out fmt
  = match args with
    | [] => Val (out ++ fmt)
    | _ :: _ => Exn TypeError
    end.
Proof.
  revert out. induction fmt as [|c fmt IH]; intros out H.
  - rewrite app_nil_r. reflexivity.
  - apply not_elem_of_cons in H as [Hc Hf].
    cbn [fmt_run fmt_step]. change (chr "%") with 37.
    destruct (Z.eqb_spec c 37); [congruence|].
    rewrite IH by exact Hf. rewrite <- app_assoc. reflexivity.
Qed.

(** X15: a format without a [%] reads no string and changes nothing: with
    no arguments [__common_printf] returns the format itself, and with any
    argument it raises the [TypeError] of arguments left over. *)
Theorem common_printf_plain_format host fuel (format : pystr) wstring ql
    (args : list pyval) :
  37 ∉ format ->
  __common_printf host fuel format wstring (ql, args)
  = ((ql, args),
     match args with
     | [] => Ok format
     | _ :: _ => Raise TypeError
     end).
Proof.
  intros H. rewrite common_printf_eq.
  unfold segments, normalized, replace. change (py "%") with [37].
  rewrite (split_from_no_sep 37 format H).
  change (py "%llx") with [37; 108; 108; 120]. change (py "%p") with [37; 112].
  rewrite (replace_from_absent _ _ format) by (apply contains_no_head, H).
  rewrite (replace_from_absent _ _ format) by (apply contains_no_head, H).
  cbn. unfold py_mod. rewrite fmt_run_text by exact H.
  destruct args; reflexivity.
Qed.

Lemma common_printf_plain_format_witness :
  __common_printf host_plain 0 (py "done") true (machine 0 [], [PInt 1])
  = ((machine 0 [], [PInt 1]), Raise TypeError).
Proof.
  apply (common_printf_plain_format host_plain 0 (py "done") true
           (machine 0 []) [PInt 1]).
  not_in_list.
Defined.

Lemma startswith_split (s p : pystr) :
  startswith s p = true -> s = p ++ drop (length p) s.
Proof.
  revert s. induction p as [|c p IH]; intros s H; [reflexivity|].
  destruct s as [|d s]; [discriminate H|].
  cbn [startswith] in H. apply andb_true_iff in H as [Hc Hp].
  apply Z.eqb_eq in Hc. subst d. cbn [length drop app]. f_equal.
  apply IH, Hp.
Qed.

Lemma contains_app_r (a b sub : pystr) :
  contains b sub = true -> contains (a ++ b) sub = true.
Proof.
  intros H. induction a as [|c a IH]; [exact H|].
  cbn [app contains]. rewrite IH. apply orb_true_r.
Qed.

Lemma replace_from_keeps_out (c : Z) (old new : pystr) (s : pystr) (skip : nat) :
  c ∉ s -> c ∉ new -> c ∉ replace_from old new skip s.
Proof.
  intros Hs Hn. revert skip Hs.
  induction s as [|d s IH]; intros skip Hs; [exact Hs|].
  apply not_elem_of_cons in Hs as [Hd Hs].
  cbn [replace_from]. destruct skip as [|k]; [|apply IH, Hs].
  destruct (startswith (d :: s) old).
  - apply not_elem_of_app. split; [exact Hn|apply IH, Hs].
  - apply not_elem_of_cons. split; [exact Hd|apply IH, Hs].
Qed.

Section PercentCount.

(** The patterns and replacements of [__common_printf]: a [%] and then
    characters other than [%], at least one in the pattern. *)
Variables (o n : pystr).
Hypothesis Ho : 37 ∉ o.
Hypothesis Hn : 37 ∉ n.
Hypothesis Ho1 : o <> [].

Local Abbreviation percents := (fun s : pystr => length (filter (fun d => d = 37) s)).

Lemma percents_none (s : pystr) : 37 ∉ s -> percents s = 0%nat.
Proof.
  induction s as [|d s IH]; intros H; [reflexivity|].
  apply not_elem_of_cons in H as [Hd Hs]. rewrite filter_cons.
  destruct (decide (d = 37)); [congruence|]. apply IH, Hs.
Qed.

(** A replacement keeps the number of [%] characters. *)
Lemma replace_from_percents (s : pystr) (skip : nat) :
  percents (replace_from (37 :: o) (37 :: n) skip s) = percents (drop skip s).
Proof.
  revert skip. induction s as [|c s IH]; intros skip.
  - destruct skip; reflexivity.
  - cbn [replace_from]. destruct skip as [|k]; [|apply IH].
    cbn [drop]. destruct (startswith (c :: s) (37 :: o)) eqn:E.
    + cbn [startswith] in E. apply andb_true_iff in E as [Ec Es].
      apply Z.eqb_eq in Ec. subst c.
      replace (Nat.sub (length (37 :: o)) 1) with (length o) by (simpl; lia).
      change ((37 :: n) ++ ?r) with (37 :: (n ++ r)).
      rewrite !filter_cons. destruct (decide (37 = 37)); [|congruence].
      cbn [length]. f_equal. rewrite filter_app, length_app.
      rewrite (percents_none n Hn), IH. cbn [Nat.add].
      rewrite (startswith_split _ _ Es) at 2.
      rewrite filter_app, length_app, (percents_none o Ho). reflexivity.
    + rewrite !filter_cons. specialize (IH 0%nat). cbn [drop] in IH.
      destruct (decide (c = 37)); cbn [length]; rewrite IH; reflexivity.
Qed.

(** A replacement keeps a doubled [%]. *)
Lemma replace_from_doubled (s : pystr) (skip : nat) :
  contains (drop skip s) [37; 37] = true ->
  contains (replace_from (37 :: o) (37 :: n) skip s) [37; 37] = true.
Proof.
  revert skip. induction s as [|c s IH]; intros skip H.
  - destruct skip; discriminate H.
  - cbn [replace_from]. destruct skip as [|k]; [|apply IH, H].
    cbn [drop] in H. destruct (startswith (c :: s) (37 :: o)) eqn:E.
    + apply contains_app_r. apply IH.
      replace (Nat.sub (length (37 :: o)) 1) with (length o) by (simpl; lia).
      cbn [startswith] in E. apply andb_true_iff in E as [Ec Es].
      apply Z.eqb_eq in Ec. subst c.
      rewrite (startswith_split _ _ Es) in H.
      destruct o as [|d o']; [congruence|].
      apply not_elem_of_cons in Ho as [Hd Ho'].
      cbn [contains startswith app] in H.
      rewrite Z.eqb_refl in H.
      destruct (Z.eqb_spec 37 d) as [Heq|_]; [congruence|].
      cbn [andb orb] in H.
      rewrite (contains_app_no_head 37 o') in H by exact Ho'. exact H.
    + cbn [contains] in *. apply orb_true_iff in H as [H|H].
      * apply orb_true_iff. left.
        cbn [startswith] in H. apply andb_true_iff in H as [Hc H].
        cbn [startswith]. rewrite Hc. cbn [andb].
        destruct s as [|d s']; [discriminate H|].
        cbn [startswith] in H. apply andb_true_iff in H as [Hd _].
        apply Z.eqb_eq in Hd. subst d.
        cbn [replace_from].
        destruct (startswith (37 :: s') (37 :: o));
          cbn [app startswith]; rewrite startswith_nil; reflexivity.
      * apply orb_true_iff. right. apply (IH 0%nat), H.
Qed.

End PercentCount.

(** Without a [*], a specifier asks for at most one argument, and for
    none when a second [%] ends it. *)
Lemma phase_step_bound (ph : phase) (c : Z) :
  c <> 42 ->
  (snd (phase_step ph c) + pending (fst (phase_step ph c))
   <= pending ph + (if (c =? 37)%Z then 1 else 0))%nat
  /\ (ph <> PhText ->
      (snd (phase_step ph c) + pending (fst (phase_step ph c)) <= 1)%nat).
Proof.
  intros Hc. unfold phase_step, is_flag, is_length_modifier.
  change (chr "*") with 42. change (chr "%") with 37.
  destruct (Z.eqb_spec c 42) as [|_]; [congruence|].
  destruct (c =? 37);
    destruct ph; repeat case_match; cbn [fst snd pending];
    split; try lia; intros; try congruence; lia.
Qed.

Lemma demand_le (fmt : pystr) (ph : phase) :
  42 ∉ fmt ->
  (demand_from ph fmt
   <= pending ph + length (filter (fun d : Z => d = 37%Z) fmt))%nat.
Proof.
  revert ph. induction fmt as [|c fmt IH]; intros ph H; [simpl; lia|].
  apply not_elem_of_cons in H as [Hc Hf].
  cbn [demand_from]. rewrite filter_cons.
  pose proof (phase_step_bound ph c (not_eq_sym Hc)) as [H1 _].
  destruct (phase_step ph c) as [ph' k]. cbn [fst snd] in H1.
  specialize (IH ph' Hf).
  destruct (decide (c = 37)) as [->|Hne]; cbn [length].
  - rewrite Z.eqb_refl in H1. lia.
  - destruct (Z.eqb_spec c 37); [congruence|]. lia.
Qed.

(** A doubled [%] is counted twice but asks for nothing. *)
Lemma demand_lt (fmt : pystr) (ph : phase) :
  42 ∉ fmt ->
  contains fmt [37; 37] = true
  \/ (ph <> PhText /\ startswith fmt [37] = true) ->
  (demand_from ph fmt
   < pending ph + length (filter (fun d : Z => d = 37%Z) fmt))%nat.
Proof.
  revert ph. induction fmt as [|c fmt IH]; intros ph H Hd.
  - destruct Hd as [Hd|[_ Hd]]; discriminate Hd.
  - apply not_elem_of_cons in H as [Hc Hf].
    cbn [demand_from]. rewrite filter_cons.
    pose proof (phase_step_bound ph c (not_eq_sym Hc)) as [H1 H2].
    pose proof (demand_le fmt (fst (phase_step ph c)) Hf) as Hle.
    assert (ph <> PhText /\ c = 37
            \/ (ph = PhText /\ c = 37 /\ startswith fmt [37] = true)
            \/ contains fmt [37; 37] = true) as Hcase.
    { destruct Hd as [Hd|[Hp Hd]].
      - cbn [contains] in Hd. apply orb_true_iff in Hd as [Hd|Hd]; [|auto].
        cbn [startswith] in Hd. apply andb_true_iff in Hd as [Hd1 Hd2].
        apply Z.eqb_eq in Hd1.
        assert (ph = PhText \/ ph <> PhText) as [Hp|Hp]
          by (destruct ph; auto; right; discriminate).
        -- right. left. auto.
        -- left. auto.
      - cbn [startswith] in Hd. apply andb_true_iff in Hd as [Hd _].
        apply Z.eqb_eq in Hd. auto. }
    destruct Hcase as [[Hp ->]|[(-> & -> & Hs)|Hcont]].
    + specialize (H2 Hp).
      destruct (phase_step ph 37) as [ph' k]. cbn [fst snd] in *.
      assert (pending ph = 1%nat) as Hpend
        by (destruct ph; [congruence|reflexivity..]).
      destruct (decide (37 = 37)); [|congruence]. cbn [length]. lia.
    + clear H1 H2 Hle Hd.
      assert (PhPercent <> PhText) as Hp by discriminate.
      specialize (IH PhPercent Hf (or_intror (conj Hp Hs))).
      change (phase_step PhText 37) with (PhPercent, 0%nat).
      destruct (decide (37 = 37)); [|congruence].
      cbn [length pending Nat.add] in IH |- *. lia.
    + specialize (IH (fst (phase_step ph c)) Hf (or_introl Hcont)).
      destruct (phase_step ph c) as [ph' k]. cbn [fst snd] in *.
      destruct (decide (c = 37)) as [->|Hne]; cbn [length].
      * rewrite Z.eqb_refl in H1. lia.
      * destruct (Z.eqb_spec c 37); [congruence|]. lia.
Qed.

(** X16: a literal [%%] is counted as two markers by [count] but asks for
    no argument. For a format without [*] that contains [%%], an argument
    list with one slot per [%], as [va_list] builds it, is too long:
    [__common_printf] returns no text, whatever the slots hold; it ends in
    an exception, or out of fuel while it reads a string. *)
Theorem literal_percent_never_formats host fuel (format : pystr) wstring ql
    (args : list pyval) :
  42 ∉ format ->
  contains format (py "%%") = true ->
  length args = count format (py "%") ->
  snd (__common_printf host fuel format wstring (ql, args)) = OutOfFuel
  \/ exists e,
       snd (__common_printf host fuel format wstring (ql, args)) = Raise e.
Proof.
  intros Hstar Hpp Hlen.
  destruct (__common_printf host fuel format wstring (ql, args))
    as [[ql' args'] r] eqn:E.
  cbn [snd]. destruct r as [out|e|]; [exfalso|right; exists e; reflexivity|auto].
  destruct (common_printf_changes _ _ _ _ _ _ _ _ _ E) as (_ & Hlen' & _).
  rewrite common_printf_eq in E.
  destruct (resolve_strings fuel wstring (segments format) (ql, args))
    as [[ql1 args1] [u|e|]]; try discriminate E.
  injection E as _ <- E.
  destruct (py_mod host (normalized format) args1) as [r|e] eqn:Hmod;
    [|discriminate E].
  apply fmt_run_demand in Hmod. cbn [phase_of] in Hmod.
  assert (demand_from PhText (normalized format)
          < length (filter (fun d : Z => d = 37%Z) format))%nat as Hlt.
  { change (normalized format)
      with (replace_from [37; 112] [37; 35; 120] 0
              (replace_from [37; 108; 108; 120] [37; 120] 0 format)).
    pose proof (demand_lt
                  (replace_from [37; 112] [37; 35; 120] 0
                     (replace_from [37; 108; 108; 120] [37; 120] 0 format))
                  PhText) as Hd.
    rewrite replace_from_percents, drop_0 in Hd by not_in_list.
    rewrite replace_from_percents, drop_0 in Hd by not_in_list.
    cbn [pending Nat.add] in Hd. apply Hd.
    - apply replace_from_keeps_out; [|not_in_list].
      apply replace_from_keeps_out; [exact Hstar|not_in_list].
    - left. apply replace_from_doubled; [not_in_list|discriminate|].
      apply replace_from_doubled; [not_in_list|discriminate|].
      exact Hpp. }
  unfold count in Hlen. change (py "%") with [37] in Hlen.
  rewrite count_from_single in Hlen. lia.
Qed.

Lemma literal_percent_never_formats_witness :
  snd (__common_printf host_plain 0 (py "100%%") false
         (machine 0 [], [PInt 1; PInt 2]))
  = OutOfFuel
  \/ exists e,
       snd (__common_printf host_plain 0 (py "100%%") false
              (machine 0 [], [PInt 1; PInt 2]))
       = Raise e.
Proof.
  apply (literal_percent_never_formats host_plain 0 (py "100%%") false
           (machine 0 []) [PInt 1; PInt 2]).
  - not_in_list.
  - reflexivity.
  - reflexivity.
Defined.

Example literal_percent_example :
  __common_printf host_plain 0 (py "100%%") false (machine 0 [], [])
  = ((machine 0 [], []), Ok (py "100%"))
  /\ va_list read_ptr_le (py "100%%") 100
       (machine 100 ["001"; x00; x00; x00; "002"; x00; x00; x00]%byte)
     = (machine 100 ["001"; x00; x00; x00; "002"; x00; x00; x00]%byte,
        Ok [PInt 1; PInt 2])
  /\ __common_printf host_plain 0 (py "100%%") false
       (machine 0 [], [PInt 1; PInt 2])
     = ((machine 0 [], [PInt 1; PInt 2]), Raise TypeError).
Proof. vm_compute. auto. Qed.

(** ** The address prefix of a debug line *)

Lemma digits_loop_length (upper : bool) (base : Z) :
  2 <= base ->
  forall fuel (k : nat) n acc,
    (1 <= k)%nat ->
    0 <= n < base ^ Z.of_nat k ->
    (length (digits_loop upper base fuel n acc) <= length acc + k)%nat.
Proof.
  intros Hb. induction fuel as [|fuel IH]; intros k n acc Hk Hn.
  - simpl. lia.
  - cbn [digits_loop].
    destruct (Z.eqb_spec (n / base) 0) as [H0|H0]; [simpl; lia|].
    destruct k as [|k]; [lia|].
    rewrite Nat2Z.inj_succ, Z.pow_succ_r in Hn by lia.
    assert (0 <= n / base < base ^ Z.of_nat k) as Hq.
    { split; [apply Z.div_pos; lia|apply Z.div_lt_upper_bound; lia]. }
    assert (1 <= k)%nat as Hk'.
    { destruct k as [|k]; [|lia]. simpl in Hq. lia. }
    specialize (IH k (n / base) (digit_char upper (n mod base) :: acc) Hk' Hq).
    cbn [length] in IH. lia.
Qed.

Lemma digits_value_zeros (base : Z) (k : nat) (ds : pystr) :
  digits_value base (repeat 48 k ++ ds) = digits_value base ds.
Proof.
  unfold digits_value. rewrite fold_left_app. f_equal.
  induction k as [|k IH]; [reflexivity|]. cbn [repeat fold_left].
  exact IH.
Qed.

(** X17: at or above the debug threshold, on an architecture of at least
    four bits and for an address that fits its width, the line goes to the
    debug channel behind a prefix of fixed width: [0x], then as many
    hexadecimal digits as the architecture has nibbles, which read back as
    the address, then a colon and a blank. *)
Theorem print_function_debug_prefix (DEBUG address : Z) (fname : pystr)
    (pargs : list (pystr * pystr)) (ret_ : retval) (passthru : bool) ql :
  DEBUG <= verbose ql ->
  4 <= arch_bits ql ->
  0 <= address < 16 ^ (arch_bits ql / 4) ->
  exists hex : pystr,
    length hex = Z.to_nat (arch_bits ql / 4)
    /\ digits_value 16 hex = address
    /\ print_function DEBUG address fname pargs ret_ passthru ql
       = (log_emit LogDebug
            (py "0x" ++ hex ++ py ": "
             ++ trace_line trace_pair fname pargs ret_ passthru) ql,
          Ok tt).
Proof.
  intros Hv Hbits Ha.
  assert (1 <= arch_bits ql / 4) as Hn by zdm.
  set (ds := digits false 16 address).
  assert (length ds <= Z.to_nat (arch_bits ql / 4))%nat as Hlen.
  { pose proof (digits_loop_length false 16 ltac:(lia)
                  (S (Z.to_nat (Z.log2 address)))
                  (Z.to_nat (arch_bits ql / 4)) address [] ltac:(lia)) as H.
    rewrite Z2Nat.id in H by lia. apply H. exact Ha. }
  exists (repeat 48 (Z.to_nat (arch_bits ql / 4) - length ds)%nat ++ ds).
  split; [rewrite length_app, repeat_length; lia|].
  split.
  { rewrite digits_value_zeros. apply digits_value_digits; lia. }
  unfold print_function, bind, gets, ret, modify, lift, format_hash_0_x.
  destruct (Z.leb_spec DEBUG (verbose ql)) as [_|Hd]; [|lia].
  destruct (Z.ltb_spec (arch_bits ql / 4 + 2) 0) as [Hneg|_]; [lia|].
  unfold sign_of. destruct (Z.ltb_spec address 0) as [Hneg|_]; [lia|].
  rewrite Z.abs_eq by lia. fold ds. cbn [of_py app].
  replace (Z.to_nat (arch_bits ql / 4 + 2) - length (py "0x") - length ds)%nat
    with (Z.to_nat (arch_bits ql / 4) - length ds)%nat
    by (change (length (py "0x")) with 2%nat; lia).
  rewrite map_assign_arg. unfold trace_line.
  destruct ret_; cbn [app]; rewrite <- ?app_assoc; reflexivity.
Qed.

Lemma print_function_debug_prefix_witness :
  exists hex : pystr,
    length hex = Z.to_nat (arch_bits (machine 0 []) / 4)
    /\ digits_value 16 hex = 0x4010
    /\ print_function 1 0x4010 (py "hook_puts") [(py "s", py "0x2000")]
         RetNone false (machine 0 [])
       = (log_emit LogDebug
            (py "0x" ++ hex ++ py ": "
             ++ trace_line trace_pair (py "hook_puts") [(py "s", py "0x2000")]
                  RetNone false) (machine 0 []),
          Ok tt).
Proof.
  apply (print_function_debug_prefix 1 0x4010 (py "hook_puts")
           [(py "s", py "0x2000")] RetNone false (machine 0 [])).
  - vm_compute. discriminate.
  - vm_compute. discriminate.
  - vm_compute. split; [discriminate|reflexivity].
Defined.

(** ** What [sprintf] does to memory *)

Lemma write_bytes_domain m a bs m' :
  write_bytes m a bs = Some m' ->
  (forall i, (i < length bs)%nat -> is_Some (m !! (a + Z.of_nat i)))
  /\ forall x, is_Some (m' !! x) <-> is_Some (m !! x).
Proof.
  revert m a. induction bs as [|b bs IH]; intros m a H; simpl in H.
  - injection H as <-. split; [simpl; lia|reflexivity].
  - destruct (m !! a) as [b0|] eqn:E; [|discriminate].
    destruct (IH _ _ H) as [Hmapped Hdom]. split.
    + intros [|i] Hi.
      * rewrite Z.add_0_r, E. eauto.
      * specialize (Hmapped i ltac:(simpl in Hi; lia)).
        rewrite lookup_insert_ne in Hmapped by lia.
        replace (a + Z.of_nat (S i)) with (a + 1 + Z.of_nat i) by lia.
        exact Hmapped.
    + intros x. rewrite Hdom. destruct (decide (a = x)) as [->|Hne].
      * rewrite lookup_insert_eq, E. split; eauto.
      * rewrite lookup_insert_ne by exact Hne. reflexivity.
Qed.

(** X18: [sprintf] writes last and all or nothing. It prints nothing and
    logs nothing and maps no memory; when it returns, the encoded text with
    its terminator lay wholly in memory that was mapped before the call,
    and the bytes outside that range are as they were; when it does not
    return, a refused write included, memory is as it was. *)
Theorem sprintf_all_or_nothing host fuel (buff : Z) (format : pystr) wstring
    ql (args : list pyval) ql' (args' : list pyval) (r : Result Z) :
  sprintf host fuel buff format wstring (ql, args) = ((ql', args'), r) ->
  stdout ql' = stdout ql
  /\ log ql' = log ql
  /\ (forall x, is_Some (mem ql' !! x) <-> is_Some (mem ql !! x))
  /\ match r with
     | Ok n =>
         exists out data,
           snd (__common_printf host fuel format wstring (ql, args)) = Ok out
           /\ encode (codec wstring) (out ++ [0]) = Val data
           /\ n = Z.of_nat (length out)
           /\ (forall i, (i < length data)%nat ->
                 is_Some (mem ql !! (buff + Z.of_nat i)))
           /\ (forall x,
                 x < buff \/ buff + Z.of_nat (length data) <= x ->
                 mem ql' !! x = mem ql !! x)
     | _ => mem ql' = mem ql
     end.
Proof.
  rewrite sprintf_eq.
  destruct (__common_printf host fuel format wstring (ql, args))
    as [[ql1 args1] r1] eqn:E.
  destruct (common_printf_changes _ _ _ _ _ _ _ _ _ E)
    as ((_ & _ & _ & Hmem & Hout & Hlog & _) & _).
  destruct r1 as [out|e|].
  - destruct (encode (codec wstring) (out ++ [0])) as [data|e] eqn:Henc.
    + destruct (write_bytes (mem ql1) buff data) as [m2|] eqn:Hw.
      * intros [= <- <- <-]. cbn [stdout log mem set_mem].
        destruct (write_bytes_domain _ _ _ _ Hw) as [Hmapped Hdom].
        rewrite Hmem in Hmapped, Hdom.
        split; [exact Hout|]. split; [exact Hlog|]. split; [exact Hdom|].
        exists out, data. split; [reflexivity|]. split; [exact Henc|].
        split; [reflexivity|]. split; [exact Hmapped|].
        intros x Hx. rewrite (write_bytes_frame _ _ _ _ x Hw Hx), Hmem.
        reflexivity.
      * intros [= <- <- <-]. rewrite Hmem. auto.
    + intros [= <- <- <-]. rewrite Hmem. auto.
  - intros [= <- <- <-]. rewrite Hmem. auto.
  - intros [= <- <- <-]. rewrite Hmem. auto.
Qed.

Lemma sprintf_all_or_nothing_witness :
  stdout (machine 100 ["?"; "?"]%byte) = stdout (machine 100 ["?"; "?"]%byte)
  /\ log (machine 100 ["?"; "?"]%byte) = log (machine 100 ["?"; "?"]%byte)
  /\ (forall x,
        is_Some (mem (machine 100 ["?"; "?"]%byte) !! x)
        <-> is_Some (mem (machine 100 ["?"; "?"]%byte) !! x))
  /\ mem (machine 100 ["?"; "?"]%byte) = mem (machine 100 ["?"; "?"]%byte).
Proof.
  apply (sprintf_all_or_nothing host_plain 0 100 (py "abc") false
           (machine 100 ["?"; "?"]%byte) []
           (machine 100 ["?"; "?"]%byte) [] (Raise MemoryAccessError)).
  vm_compute. reflexivity.
Defined.

Example sprintf_refused_write :
  sprintf host_plain 0 100 (py "abc") false (machine 100 ["?"; "?"]%byte, [])
  = ((machine 100 ["?"; "?"]%byte, []), Raise MemoryAccessError).
Proof. vm_compute. reflexivity. Qed.
